(** * Braitenberg vehicle controller

    A shallow embedding of
    [src/braitenberg_vehicle/src/braitenberg_vehicle_controller.cpp]
    and the properties of its callbacks.

    Numbers.  There are two layers.  The callbacks, the lock and the
    messages are stated over a sensor law in exact real arithmetic
    ([R], with [std::hypot] as the Euclidean norm): what they say does
    not depend on how a reading is rounded.  What does depend on
    rounding, overflow and NaN is stated over [B64], where [double] is
    the IEEE 754 binary64 type [PrimFloat.float] and [std::hypot] rounds
    the exact square root once.

    Effects.  The callbacks lock and unlock [mutex_], read and assign
    [goal_pose_] and publish on [twist_pub_].  Their bodies are written
    once, as terms of the small command type [Prog]; the same terms are
    run alone ([exec]) and interleaved by a scheduler ([run]). *)

From Stdlib Require Import Floats.
From Stdlib Require Import Reals Lra List String Bool Arith ZArith Lia.
Import ListNotations.

Local Open Scope R_scope.

(** ** Message types (geometry_msgs, sensor_msgs) *)

Record Point := { px : R; py : R; pz : R }.

Record Quaternion := { qx : R; qy : R; qz : R; qw : R }.

Record Pose := { position : Point; orientation : Quaternion }.

(** [std_msgs::msg::Header]: time stamp (seconds, nanoseconds) and frame. *)
Record Header := { stamp_sec : Z; stamp_nanosec : Z; frame_id : string }.

Record PoseStamped := { header : Header; pose : Pose }.

Record Vector3 := { vx : R; vy : R; vz : R }.

Record Twist := { linear : Vector3; angular : Vector3 }.

Record LaserScan := {
  scan_header : Header;
  angle_min : R;
  angle_max : R;
  angle_increment : R;
  range_min : R;
  range_max : R;
  ranges : list R;
  intensities : list R
}.

(** [geometry_msgs::msg::Twist()]: every component value-initialised. *)
Definition Twist_default : Twist :=
  {| linear := {| vx := 0; vy := 0; vz := 0 |};
     angular := {| vx := 0; vy := 0; vz := 0 |} |}.

(** ** Numeric primitives *)

(** [std::numeric_limits<double>::epsilon()]. *)
Definition epsilon : R := / 2 ^ 52.

(** [std::hypot(a, b)]. *)
Definition hypot (a b : R) : R := sqrt (a * a + b * b).

(** ** The controller object *)

(** The class of [motion_model_] is declared outside this file.  It is
    built from the wheel radius and the wheel base, and [get_twist]
    maps the left and the right input to a velocity command; the map
    itself is a parameter carried by the object. *)
Record MotionModel := {
  wheel_radius : R;
  wheel_base : R;
  get_twist : R -> R -> Twist
}.

Record BraitenbergVehicleController := {
  base_link_frame_id_ : string;
  virtual_light_sensor_position_x_offset_ : R;
  virtual_light_sensor_position_y_offset_ : R;
  motion_model_ : MotionModel;
  goal_pose_ : option Pose;
  mutex_ : bool  (* [true]: locked *)
}.

Definition with_goal_pose (c : BraitenbergVehicleController) (g : option Pose)
  : BraitenbergVehicleController :=
  {| base_link_frame_id_ := base_link_frame_id_ c;
     virtual_light_sensor_position_x_offset_ :=
       virtual_light_sensor_position_x_offset_ c;
     virtual_light_sensor_position_y_offset_ :=
       virtual_light_sensor_position_y_offset_ c;
     motion_model_ := motion_model_ c;
     goal_pose_ := g;
     mutex_ := mutex_ c |}.

Definition with_mutex (c : BraitenbergVehicleController) (m : bool)
  : BraitenbergVehicleController :=
  {| base_link_frame_id_ := base_link_frame_id_ c;
     virtual_light_sensor_position_x_offset_ :=
       virtual_light_sensor_position_x_offset_ c;
     virtual_light_sensor_position_y_offset_ :=
       virtual_light_sensor_position_y_offset_ c;
     motion_model_ := motion_model_ c;
     goal_pose_ := goal_pose_ c;
     mutex_ := m |}.

(** ** The virtual light sensor *)

(** [emulate_light_sensor] is a [const] member function; the only
    member it reads is [goal_pose_], which is its first argument here. *)
Definition emulate_light_sensor (goal : option Pose) (x_offset y_offset : R) : R :=
  let e := epsilon in
  match goal with
  | Some g =>
      let distance := hypot (px (position g) - x_offset) (py (position g) - y_offset) in
      if Rle_dec (Rabs distance) e then 1 else 1 / distance
  | None => 0
  end.




(** The reference function of the specification, written from its
    words: 0 without a goal; otherwise, with [d] the Euclidean distance
    between the goal position and the point [(x_offset, y_offset)],
    1 when [|d|] is at or below the machine epsilon and [1 / d]
    otherwise. *)
Definition euclidean_distance (ax ay bx by_ : R) : R :=
  sqrt ((ax - bx) ^ 2 + (ay - by_) ^ 2).

Definition light_sensor_reference (goal : option Pose) (x_offset y_offset : R) : R :=
  match goal with
  | None => 0
  | Some g =>
      let d := euclidean_distance (px (position g)) (py (position g)) x_offset y_offset in
      match Rle_lt_dec (Rabs d) (/ 2 ^ 52) with
      | left _ => 1
      | right _ => 1 / d
      end
  end.

(** ** Commands

    What a callback does to the object, one constructor per kind of
    access; the continuation of a read receives the value read. *)

Inductive Prog (A : Type) : Type :=
| Ret (a : A)
| Lock (k : Prog A)                        (* mutex_.lock() *)
| Unlock (k : Prog A)                      (* mutex_.unlock() *)
| GetGoal (k : option Pose -> Prog A)      (* a read of goal_pose_ *)
| SetGoal (g : option Pose) (k : Prog A)   (* goal_pose_ = g *)
| Publish (t : Twist) (k : Prog A).        (* twist_pub_->publish(t) *)

Arguments Ret {A} a.
Arguments Lock {A} k.
Arguments Unlock {A} k.
Arguments GetGoal {A} k.
Arguments SetGoal {A} g k.
Arguments Publish {A} t k.

Fixpoint bind {A B : Type} (p : Prog A) (f : A -> Prog B) : Prog B :=
  match p with
  | Ret a => f a
  | Lock k => Lock (bind k f)
  | Unlock k => Unlock (bind k f)
  | GetGoal k => GetGoal (fun g => bind (k g) f)
  | SetGoal g k => SetGoal g (bind k f)
  | Publish t k => Publish t (bind k f)
  end.

Definition lock : Prog unit := Lock (Ret tt).
Definition unlock : Prog unit := Unlock (Ret tt).
Definition get_goal : Prog (option Pose) := GetGoal (fun g => Ret g).
Definition set_goal (g : option Pose) : Prog unit := SetGoal g (Ret tt).
Definition publish (t : Twist) : Prog unit := Publish t (Ret tt).

Declare Scope prog_scope.
Delimit Scope prog_scope with prog.
Notation "x <- c1 ;; c2" := (bind c1 (fun x => c2))
  (at level 61, c1 at next level, right associativity) : prog_scope.
Notation "c1 ;; c2" := (bind c1 (fun _ => c2))
  (at level 61, right associativity) : prog_scope.

(** ** The callbacks

    [this] gives the members that only the constructor writes
    ([base_link_frame_id_], the two offsets, [motion_model_]);
    [goal_pose_], [mutex_] and [twist_pub_] are reached through the
    commands above. *)

Definition scan_callback (this : BraitenbergVehicleController) (scan : LaserScan)
  : Prog unit :=
  (lock ;;
   unlock)%prog.

Definition goal_pose_callback (this : BraitenbergVehicleController) (msg : PoseStamped)
  : Prog unit :=
  (lock ;;
   (if String.eqb (frame_id (header msg)) (base_link_frame_id_ this)
    then set_goal (Some (pose msg))
    else set_goal None) ;;
   unlock)%prog.

(** A call of the member function: it reads [goal_pose_] of the object. *)
Definition call_emulate_light_sensor (x_offset y_offset : R) : Prog R :=
  (g <- get_goal ;;
   Ret (emulate_light_sensor g x_offset y_offset))%prog.

Definition timer_callback (this : BraitenbergVehicleController) : Prog unit :=
  (lock ;;
   (g <- get_goal ;;
    match g with
    | Some _ =>
        left_input <- call_emulate_light_sensor
                        (virtual_light_sensor_position_x_offset_ this)
                        (virtual_light_sensor_position_y_offset_ this * -1) ;;
        right_input <- call_emulate_light_sensor
                         (virtual_light_sensor_position_x_offset_ this)
                         (virtual_light_sensor_position_y_offset_ this) ;;
        publish (get_twist (motion_model_ this) left_input right_input)
    | None => publish Twist_default
    end) ;;
   unlock)%prog.

(** ** One callback running alone *)

Inductive Event :=
| EvLock
| EvUnlock
| EvGetGoal (g : option Pose)
| EvSetGoal (g : option Pose)
| EvPublish (t : Twist).

(** [exec p c] runs [p] on the object [c] with no other thread around.
    It yields the result, the object afterwards and the accesses in
    program order, or [None] where a [std::mutex] has no defined
    behaviour for a lone thread: locking a mutex that is already locked
    (it never returns) and unlocking one that is not locked. *)
Fixpoint exec {A : Type} (p : Prog A) (c : BraitenbergVehicleController)
  : option (A * BraitenbergVehicleController * list Event) :=
  match p with
  | Ret a => Some (a, c, [])
  | Lock k =>
      if mutex_ c then None
      else match exec k (with_mutex c true) with
           | Some (a, c', tr) => Some (a, c', EvLock :: tr)
           | None => None
           end
  | Unlock k =>
      if mutex_ c
      then match exec k (with_mutex c false) with
           | Some (a, c', tr) => Some (a, c', EvUnlock :: tr)
           | None => None
           end
      else None
  | GetGoal k =>
      match exec (k (goal_pose_ c)) c with
      | Some (a, c', tr) => Some (a, c', EvGetGoal (goal_pose_ c) :: tr)
      | None => None
      end
  | SetGoal g k =>
      match exec k (with_goal_pose c g) with
      | Some (a, c', tr) => Some (a, c', EvSetGoal g :: tr)
      | None => None
      end
  | Publish t k =>
      match exec k c with
      | Some (a, c', tr) => Some (a, c', EvPublish t :: tr)
      | None => None
      end
  end.

(** The messages sent on [twist_pub_], oldest first. *)
Fixpoint published (tr : list Event) : list Twist :=
  match tr with
  | [] => []
  | EvPublish t :: tr' => t :: published tr'
  | _ :: tr' => published tr'
  end.

(** [publish_while_locked held tr]: some message of [tr] is published
    at a moment where the mutex is held; [held] is its state before
    [tr]. *)
Fixpoint publish_while_locked (held : bool) (tr : list Event) : bool :=
  match tr with
  | [] => false
  | EvLock :: tr' => publish_while_locked true tr'
  | EvUnlock :: tr' => publish_while_locked false tr'
  | EvPublish _ :: tr' => held || publish_while_locked held tr'
  | _ :: tr' => publish_while_locked held tr'
  end.

(** ** Callbacks running concurrently

    The executor may run any number of callback invocations at once.
    Each is a thread of the pool; a schedule names the thread that
    takes the next step.  An assignment to [goal_pose_] is not atomic:
    it takes two steps, and between them the variable holds a partly
    written value. *)

Inductive Cell :=
| Whole (g : option Pose)
| Torn (old new : option Pose).

Inductive Thread :=
| Run (p : Prog unit)
| Storing (g : option Pose) (k : Prog unit).

Record System := {
  sys_goal : Cell;
  sys_owner : option nat;         (* the thread that holds mutex_ *)
  sys_pool : nat -> Thread;
  sys_published : list Twist;
  sys_torn_reads : nat            (* reads that met a partly written goal *)
}.

Definition upd (pool : nat -> Thread) (i : nat) (t : Thread) : nat -> Thread :=
  fun j => if Nat.eqb j i then t else pool j.

Definition cell_old (c : Cell) : option Pose :=
  match c with
  | Whole g => g
  | Torn old _ => old
  end.

(** One step of thread [i].  A thread that cannot move (finished,
    waiting for the mutex, or unlocking a mutex it does not hold) leaves
    the system as it is.  [junk] is what a read obtains from a partly
    written goal. *)
Definition sched_step (i : nat) (junk : option Pose) (s : System) : System :=
  match sys_pool s i with
  | Run (Ret _) => s
  | Run (Lock k) =>
      match sys_owner s with
      | None =>
          {| sys_goal := sys_goal s; sys_owner := Some i;
             sys_pool := upd (sys_pool s) i (Run k);
             sys_published := sys_published s;
             sys_torn_reads := sys_torn_reads s |}
      | Some _ => s
      end
  | Run (Unlock k) =>
      match sys_owner s with
      | Some j =>
          if Nat.eqb j i
          then {| sys_goal := sys_goal s; sys_owner := None;
                  sys_pool := upd (sys_pool s) i (Run k);
                  sys_published := sys_published s;
                  sys_torn_reads := sys_torn_reads s |}
          else s
      | None => s
      end
  | Run (GetGoal k) =>
      match sys_goal s with
      | Whole g =>
          {| sys_goal := sys_goal s; sys_owner := sys_owner s;
             sys_pool := upd (sys_pool s) i (Run (k g));
             sys_published := sys_published s;
             sys_torn_reads := sys_torn_reads s |}
      | Torn _ _ =>
          {| sys_goal := sys_goal s; sys_owner := sys_owner s;
             sys_pool := upd (sys_pool s) i (Run (k junk));
             sys_published := sys_published s;
             sys_torn_reads := S (sys_torn_reads s) |}
      end
  | Run (SetGoal g k) =>
      {| sys_goal := Torn (cell_old (sys_goal s)) g; sys_owner := sys_owner s;
         sys_pool := upd (sys_pool s) i (Storing g k);
         sys_published := sys_published s;
         sys_torn_reads := sys_torn_reads s |}
  | Run (Publish t k) =>
      {| sys_goal := sys_goal s; sys_owner := sys_owner s;
         sys_pool := upd (sys_pool s) i (Run k);
         sys_published := sys_published s ++ [t];
         sys_torn_reads := sys_torn_reads s |}
  | Storing g k =>
      {| sys_goal := Whole g; sys_owner := sys_owner s;
         sys_pool := upd (sys_pool s) i (Run k);
         sys_published := sys_published s;
         sys_torn_reads := sys_torn_reads s |}
  end.

Fixpoint run (sched : list (nat * option Pose)) (s : System) : System :=
  match sched with
  | [] => s
  | (i, junk) :: sched' => run sched' (sched_step i junk s)
  end.

(** What the executor can invoke. *)
Inductive Invocation :=
| OnScan (scan : LaserScan)
| OnGoalPose (msg : PoseStamped)
| OnTimer.

Definition handler (this : BraitenbergVehicleController) (inv : Invocation)
  : Prog unit :=
  match inv with
  | OnScan scan => scan_callback this scan
  | OnGoalPose msg => goal_pose_callback this msg
  | OnTimer => timer_callback this
  end.

(** The system at start: the mutex free, the goal as the object holds
    it, thread [i] about to run the invocation [invs i], if any. *)
Definition boot (this : BraitenbergVehicleController)
  (invs : nat -> option Invocation) : System :=
  {| sys_goal := Whole (goal_pose_ this);
     sys_owner := None;
     sys_pool := fun i => match invs i with
                          | Some inv => Run (handler this inv)
                          | None => Run (Ret tt)
                          end;
     sys_published := [];
     sys_torn_reads := 0%nat |}.

(** The lock discipline of a command sequence: [guarded held p] says
    that, entered with the mutex held or not as [held] tells, [p] locks
    only a mutex it does not hold, unlocks only one it holds, reads and
    writes the goal only while it holds the mutex, and holds nothing
    when it returns, on every path. *)
Fixpoint guarded {A : Type} (held : bool) (p : Prog A) : Prop :=
  match p with
  | Ret _ => held = false
  | Lock k => held = false /\ guarded true k
  | Unlock k => held = true /\ guarded false k
  | GetGoal k => held = true /\ forall g, guarded true (k g)
  | SetGoal _ k => held = true /\ guarded true k
  | Publish _ k => guarded held k
  end.

(** The invariant of the interleaved runs: every thread keeps the lock
    discipline from where it stands, a thread in the middle of an
    assignment holds the mutex, a partly written goal has a thread in
    the middle of an assignment, and no read has met a partly written
    goal so far. *)
Definition holds (s : System) (i : nat) : bool :=
  match sys_owner s with
  | Some j => Nat.eqb j i
  | None => false
  end.

Definition thread_ok (s : System) (i : nat) : Prop :=
  match sys_pool s i with
  | Run p => guarded (holds s i) p
  | Storing _ k => holds s i = true /\ guarded true k
  end.

Definition cell_ok (s : System) : Prop :=
  match sys_goal s with
  | Whole _ => True
  | Torn _ _ => exists i g k, sys_pool s i = Storing g k
  end.

Definition disciplined (s : System) : Prop :=
  (forall i, thread_ok s i) /\ cell_ok s /\ sys_torn_reads s = 0%nat.


(** The owner of the mutex when thread 0 is the only thread. *)
Definition owner_of (c : BraitenbergVehicleController) : option nat :=
  if mutex_ c then Some 0%nat else None.

(** Two threads that skip the mutex: thread 0 assigns the goal, thread 1
    reads it. *)
Definition racing_system (g : option Pose) : System :=
  {| sys_goal := Whole None;
     sys_owner := None;
     sys_pool := fun i => match i with
                          | 0%nat => Run (set_goal g)
                          | 1%nat => Run (bind get_goal (fun _ => Ret tt))
                          | _ => Run (Ret tt)
                          end;
     sys_published := [];
     sys_torn_reads := 0%nat |}.

(** ** Concrete objects

    The object as the constructor leaves it when no parameter is
    overridden: frame ["base_link"], both offsets 0.1, wheel radius
    0.033, wheel base 0.16 and no goal.  Its motion model only records
    its two inputs, the left one as the linear x and the right one as
    the angular z component. *)

Definition recording_model : MotionModel :=
  {| wheel_radius := 33 / 1000;
     wheel_base := 16 / 100;
     get_twist := fun left_input right_input =>
       {| linear := {| vx := left_input; vy := 0; vz := 0 |};
          angular := {| vx := 0; vy := 0; vz := right_input |} |} |}.

Definition default_controller : BraitenbergVehicleController :=
  {| base_link_frame_id_ := "base_link"%string;
     virtual_light_sensor_position_x_offset_ := 1 / 10;
     virtual_light_sensor_position_y_offset_ := 1 / 10;
     motion_model_ := recording_model;
     goal_pose_ := None;
     mutex_ := false |}.

Definition pose_at (x y : R) : Pose :=
  {| position := {| px := x; py := y; pz := 0 |};
     orientation := {| qx := 0; qy := 0; qz := 0; qw := 1 |} |}.

Definition goal_msg (frame : string) (p : Pose) : PoseStamped :=
  {| header := {| stamp_sec := 0; stamp_nanosec := 0; frame_id := frame |};
     pose := p |}.

Definition empty_scan : LaserScan :=
  {| scan_header :=
       {| stamp_sec := 0; stamp_nanosec := 0; frame_id := "base_scan"%string |};
     angle_min := 0; angle_max := 0; angle_increment := 0;
     range_min := 0; range_max := 0;
     ranges := []; intensities := [] |}.

(** ** Distances

    The local [distance] of [emulate_light_sensor]: from the goal
    position to the point [(x_offset, y_offset)]. *)
Definition goal_distance (g : Pose) (x_offset y_offset : R) : R :=
  hypot (px (position g) - x_offset) (py (position g) - y_offset).

(** ** Invocations one after the other

    A single-threaded executor runs the callbacks to completion in the
    order of arrival, each on the object the previous one left. *)
Fixpoint exec_all (c : BraitenbergVehicleController) (invs : list Invocation)
  : option (BraitenbergVehicleController * list Event) :=
  match invs with
  | [] => Some (c, [])
  | inv :: rest =>
      match exec (handler c inv) c with
      | Some (_, c1, tr1) =>
          match exec_all c1 rest with
          | Some (c2, tr2) => Some (c2, tr1 ++ tr2)
          | None => None
          end
      | None => None
      end
  end.

Definition is_timer (inv : Invocation) : bool :=
  match inv with OnTimer => true | _ => false end.

Definition is_goal_pose (inv : Invocation) : bool :=
  match inv with OnGoalPose _ => true | _ => false end.

Definition is_scan (inv : Invocation) : bool :=
  match inv with OnScan _ => true | _ => false end.

(** A goal message that [goal_pose_callback] turns into a goal. *)
Definition is_accepted_goal (c : BraitenbergVehicleController) (inv : Invocation) : bool :=
  match inv with
  | OnGoalPose msg => String.eqb (frame_id (header msg)) (base_link_frame_id_ c)
  | _ => false
  end.

(** The number of timer invocations in a sequence. *)
Definition ticks (invs : list Invocation) : nat :=
  List.length (filter is_timer invs).

(** What [goal_pose_callback] assigns to [goal_pose_] for a message. *)
Definition gated_goal (c : BraitenbergVehicleController) (msg : PoseStamped)
  : option Pose :=
  if String.eqb (frame_id (header msg)) (base_link_frame_id_ c)
  then Some (pose msg) else None.

(** The message [timer_callback] publishes when the goal is [goal]. *)
Definition tick_command (c : BraitenbergVehicleController) (goal : option Pose)
  : Twist :=
  match goal with
  | Some _ =>
      get_twist (motion_model_ c)
        (emulate_light_sensor goal
           (virtual_light_sensor_position_x_offset_ c)
           (virtual_light_sensor_position_y_offset_ c * -1))
        (emulate_light_sensor goal
           (virtual_light_sensor_position_x_offset_ c)
           (virtual_light_sensor_position_y_offset_ c))
  | None => Twist_default
  end.

(** ** Where goals and commands come from

    [known_goal this invs g]: [g] is the goal the object started with
    or what [goal_pose_callback] assigns for one of the goal messages of
    [invs]. *)
Definition known_goal (this : BraitenbergVehicleController)
  (invs : nat -> option Invocation) (g : option Pose) : Prop :=
  g = goal_pose_ this
  \/ exists i msg, invs i = Some (OnGoalPose msg) /\ g = gated_goal this msg.

(** A message that is the tick's command for one goal allowed by [ok]. *)
Definition command_of (this : BraitenbergVehicleController)
  (ok : option Pose -> Prop) (t : Twist) : Prop :=
  exists g, ok g /\ t = tick_command this g.

(** [governed this ok ctx p]: what [p] assigns and publishes, given what
    it reads.  [ctx] is [None] outside the critical section and
    [Some g] inside it, with [g] the goal the variable holds. *)
Fixpoint governed (this : BraitenbergVehicleController)
  (ok : option Pose -> Prop) (ctx : option (option Pose)) (p : Prog unit) : Prop :=
  match p with
  | Ret _ => ctx = None
  | Lock k => ctx = None /\ forall g, ok g -> governed this ok (Some g) k
  | Unlock k => ctx <> None /\ governed this ok None k
  | GetGoal k =>
      match ctx with
      | Some g => governed this ok (Some g) (k g)
      | None => False
      end
  | SetGoal g' k => ctx <> None /\ ok g' /\ governed this ok (Some g') k
  | Publish t k => command_of this ok t /\ governed this ok ctx k
  end.

Definition thread_coherent (this : BraitenbergVehicleController)
  (ok : option Pose -> Prop) (s : System) (i : nat) : Prop :=
  match sys_pool s i with
  | Run p =>
      if holds s i
      then exists g, sys_goal s = Whole g /\ governed this ok (Some g) p
      else governed this ok None p
  | Storing g k => ok g /\ governed this ok (Some g) k
  end.

Definition cell_known (ok : option Pose -> Prop) (s : System) : Prop :=
  match sys_goal s with
  | Whole g => ok g
  | Torn _ new => ok new
  end.

Definition coherent (this : BraitenbergVehicleController)
  (ok : option Pose -> Prop) (s : System) : Prop :=
  disciplined s
  /\ Forall (command_of this ok) (sys_published s)
  /\ cell_known ok s
  /\ forall i, thread_coherent this ok s i.

(** A thread that has run its callback to the end. *)
Definition finished (t : Thread) : bool :=
  match t with
  | Run (Ret _) => true
  | _ => false
  end.

(** ** Construction

    The constructor reads five parameters through [get_parameter], which
    is declared outside this file: given a name and a default it yields
    the value to use ([get_string] for the frame id, [get_double] for
    the four lengths).  The motion model is built from the wheel radius
    and the wheel base; [twist_law] stands for its [get_twist].
    [goal_pose_] is not mentioned by the constructor and starts empty;
    the mutex starts free.  The publisher and the two subscriptions the
    constructor creates are the [Publish] command and the invocations
    [OnScan] and [OnGoalPose]. *)
Definition BraitenbergVehicleController_ctor
  (get_string : string -> string -> string)
  (get_double : string -> R -> R)
  (twist_law : R -> R -> R -> R -> Twist) : BraitenbergVehicleController :=
  {| base_link_frame_id_ := get_string "base_link_frame_id"%string "base_link"%string;
     virtual_light_sensor_position_x_offset_ :=
       get_double "virtual_light_sensor_position_x_offset"%string (1 / 10);
     virtual_light_sensor_position_y_offset_ :=
       get_double "virtual_light_sensor_position_y_offset"%string (1 / 10);
     motion_model_ :=
       {| wheel_radius := get_double "wheel_radius"%string (33 / 1000);
          wheel_base := get_double "wheel_base"%string (16 / 100);
          get_twist := twist_law (get_double "wheel_radius"%string (33 / 1000))
                                 (get_double "wheel_base"%string (16 / 100)) |};
     goal_pose_ := None;
     mutex_ := false |}.

(** The tick of [timer_callback] without its lock and unlock, and a
    system in which it runs beside an assignment that skips the mutex
    too. *)
Definition tick_without_mutex (this : BraitenbergVehicleController) : Prog unit :=
  (g <- get_goal ;;
   match g with
   | Some _ =>
       left_input <- call_emulate_light_sensor
                       (virtual_light_sensor_position_x_offset_ this)
                       (virtual_light_sensor_position_y_offset_ this * -1) ;;
       right_input <- call_emulate_light_sensor
                        (virtual_light_sensor_position_x_offset_ this)
                        (virtual_light_sensor_position_y_offset_ this) ;;
       publish (get_twist (motion_model_ this) left_input right_input)
   | None => publish Twist_default
   end)%prog.

Definition mixing_system (this : BraitenbergVehicleController)
  (g1 g2 : option Pose) : System :=
  {| sys_goal := Whole g1;
     sys_owner := None;
     sys_pool := fun i => match i with
                          | 0%nat => Run (set_goal g2)
                          | 1%nat => Run (tick_without_mutex this)
                          | _ => Run (Ret tt)
                          end;
     sys_published := [];
     sys_torn_reads := 0%nat |}.

(** ** Binary64

    The sensor law once more, with [double] as the IEEE 754 binary64
    numbers of [PrimFloat]: every subtraction, comparison and division
    rounds, overflows and treats NaN as the processor does. *)
Module B64.

Local Open Scope float_scope.

Record Point := { px : float; py : float; pz : float }.

Record Quaternion := { qx : float; qy : float; qz : float; qw : float }.

Record Pose := { position : Point; orientation : Quaternion }.

(** [std::numeric_limits<double>::epsilon()] = 2^-52. *)
Definition epsilon : float := 0x1p-52.

(** The exact sum of the squares of two finite numbers, as a mantissa
    and an exponent: [m * 2^e]. *)
Definition square (x : spec_float) : Z * Z :=
  match x with
  | S754_finite _ m e => (Zpos (m * m), (2 * e)%Z)
  | _ => (0%Z, 0%Z)
  end.

Definition sum_of_squares (x y : spec_float) : Z * Z :=
  let '(mx, ex) := square x in
  let '(my, ey) := square y in
  if (mx =? 0)%Z then (my, ey)
  else if (my =? 0)%Z then (mx, ex)
  else
    let e := Z.min ex ey in
    ((mx * 2 ^ (ex - e) + my * 2 ^ (ey - e))%Z, e).

(** [std::hypot] on the numbers its arguments stand for: an infinite
    argument gives +infinity, otherwise a NaN argument gives NaN,
    otherwise the square root of the exact sum of the squares, rounded
    once to the nearest binary64 number (ties to even), as a correctly
    rounded library does; no intermediate value overflows or
    underflows, the result overflows to +infinity. *)
Definition SFhypot (x y : spec_float) : spec_float :=
  match x, y with
  | S754_infinity _, _ | _, S754_infinity _ => S754_infinity false
  | S754_nan, _ | _, S754_nan => S754_nan
  | _, _ =>
      match sum_of_squares x y with
      | (Zpos m, e) =>
          let '(mz, ez, lz) := SFsqrt_core_binary prec emax (Zpos m) e in
          binary_round_aux prec emax false mz ez lz
      | _ => S754_zero false
      end
  end.

(** [std::hypot(a, b)]. *)
Definition hypot (a b : float) : float :=
  SF2Prim (SFhypot (Prim2SF a) (Prim2SF b)).

(** The local [distance] of [emulate_light_sensor]. *)
Definition goal_distance (g : Pose) (x_offset y_offset : float) : float :=
  hypot (px (position g) - x_offset) (py (position g) - y_offset).

Definition emulate_light_sensor (goal : option Pose) (x_offset y_offset : float)
  : float :=
  let e := epsilon in
  match goal with
  | Some g =>
      let distance := hypot (px (position g) - x_offset) (py (position g) - y_offset) in
      if abs distance <=? e then 1 else 1 / distance
  | None => 0
  end.

(** The two arguments [timer_callback] passes to [get_twist] when a
    goal is held: the left input first. *)
Definition seeking_inputs (goal : option Pose) (x_offset_ y_offset_ : float)
  : float * float :=
  (emulate_light_sensor goal x_offset_ (y_offset_ * -1),
   emulate_light_sensor goal x_offset_ y_offset_).

(** The reference function of the specification in binary64, written
    from its words: 0 without a goal; otherwise, with [d] the distance
    as computed, 1 when [|d|] is at or below the machine epsilon and
    [1 / d] in every other case, the one where [d] is NaN included. *)
Definition light_sensor_reference (goal : option Pose) (x_offset y_offset : float)
  : float :=
  match goal with
  | None => 0
  | Some g =>
      let d := hypot (px (position g) - x_offset) (py (position g) - y_offset) in
      match abs d ?= 0x1p-52 with
      | FLt | FEq => 1
      | FGt | FNotComparable => 1 / d
      end
  end.

(** How the reading [r] goes with the computed distance [d]: a NaN
    distance gives a NaN reading, an infinite distance gives +0, and a
    finite distance, which is never negative, gives a reading above 0. *)
Definition sign_law (d r : float) : Prop :=
  (is_nan d = true /\ is_nan r = true)
  \/ (d = infinity /\ r = 0)
  \/ (is_finite d = true /\ (0 <=? d) = true /\ (0 <? r) = true).

(** The real number a finite binary64 number stands for (0 for the
    others). *)
Definition SF2R (x : spec_float) : R :=
  match x with
  | S754_finite s m e =>
      let v := match e with
               | Z0 => IZR (Zpos m)
               | Zpos p => (IZR (Zpos m) * IZR (Z.pow_pos 2 p))%R
               | Zneg p => (IZR (Zpos m) / IZR (Z.pow_pos 2 p))%R
               end in
      if s then (- v)%R else v
  | _ => 0%R
  end.

Definition to_R (x : float) : R := SF2R (Prim2SF x).

Definition pose_at (x y : float) : Pose :=
  {| position := {| px := x; py := y; pz := 0 |};
     orientation := {| qx := 0; qy := 0; qz := 0; qw := 1 |} |}.

End B64.

(** The pose of exact reals that a binary64 pose stands for. *)
Definition pose_to_R (g : B64.Pose) : Pose :=
  {| position :=
       {| px := B64.to_R (B64.px (B64.position g));
          py := B64.to_R (B64.py (B64.position g));
          pz := B64.to_R (B64.pz (B64.position g)) |};
     orientation :=
       {| qx := B64.to_R (B64.qx (B64.orientation g));
          qy := B64.to_R (B64.qy (B64.orientation g));
          qz := B64.to_R (B64.qz (B64.orientation g));
          qw := B64.to_R (B64.qw (B64.orientation g)) |} |}.

(** ** Numeric facts *)

Lemma epsilon_pos : 0 < epsilon.
Proof.
  unfold epsilon. apply Rinv_0_lt_compat. apply pow_lt. lra.
Qed.

Lemma epsilon_lt_half : epsilon < / 2.
Proof.
  unfold epsilon. apply Rinv_lt_contravar.
  - apply Rmult_lt_0_compat; [lra | apply pow_lt; lra].
  - replace 2 with (2 ^ 1) at 1 by ring.
    apply Rlt_pow; [lra | lia].
Qed.

Lemma hypot_nonneg (a b : R) : 0 <= hypot a b.
Proof. unfold hypot. apply sqrt_pos. Qed.

Lemma hypot_euclidean (ax ay bx by_ : R) :
  hypot (ax - bx) (ay - by_) = euclidean_distance ax ay bx by_.
Proof.
  unfold hypot, euclidean_distance. f_equal. ring.
Qed.

Lemma hypot_axis (a : R) : 0 <= a -> hypot a 0 = a.
Proof.
  intros Ha. unfold hypot.
  replace (a * a + 0 * 0) with (a * a) by ring.
  now apply sqrt_square.
Qed.

(** In exact arithmetic the sensor law is the reference function of the
    specification: 0 without a goal, 1 when the distance is at or below
    the machine epsilon in absolute value, and [1 / d] otherwise. *)
Lemma exact_sensor_law_is_reference :
  forall (goal : option Pose) (x_offset y_offset : R),
    emulate_light_sensor goal x_offset y_offset
    = light_sensor_reference goal x_offset y_offset.
Proof.
  intros [g|] x y; unfold emulate_light_sensor, light_sensor_reference; cbn zeta.
  - rewrite hypot_euclidean.
    set (d := euclidean_distance _ _ _ _).
    fold epsilon.
    destruct (Rle_dec (Rabs d) epsilon) as [Hle|Hgt];
      destruct (Rle_lt_dec (Rabs d) epsilon) as [Hle'|Hgt']; lra.
  - reflexivity.
Qed.

(** ** Running a callback alone *)

Lemma with_mutex_round_trip (c : BraitenbergVehicleController) (g : option Pose) :
  mutex_ c = false ->
  with_mutex (with_goal_pose (with_mutex c true) g) false = with_goal_pose c g.
Proof.
  destruct c; cbn; intros ->; reflexivity.
Qed.

Lemma with_goal_pose_same (c : BraitenbergVehicleController) :
  with_goal_pose c (goal_pose_ c) = c.
Proof. destruct c; reflexivity. Qed.

Lemma exec_scan_callback (this : BraitenbergVehicleController) (scan : LaserScan) :
  mutex_ this = false ->
  exec (scan_callback this scan) this = Some (tt, this, [EvLock; EvUnlock]).
Proof.
  intros Hfree. cbn. rewrite Hfree.
  rewrite <- (with_goal_pose_same (with_mutex this true)).
  rewrite with_mutex_round_trip by assumption.
  cbn. rewrite with_goal_pose_same. reflexivity.
Qed.

Lemma exec_goal_pose_callback (this : BraitenbergVehicleController) (msg : PoseStamped) :
  mutex_ this = false ->
  let g := if String.eqb (frame_id (header msg)) (base_link_frame_id_ this)
           then Some (pose msg) else None in
  exec (goal_pose_callback this msg) this
  = Some (tt, with_goal_pose this g, [EvLock; EvSetGoal g; EvUnlock]).
Proof.
  intros Hfree g. subst g. unfold goal_pose_callback.
  destruct (String.eqb _ _); cbn; rewrite Hfree;
    rewrite with_mutex_round_trip by assumption; reflexivity.
Qed.

Lemma exec_timer_callback (this : BraitenbergVehicleController) :
  mutex_ this = false ->
  let x := virtual_light_sensor_position_x_offset_ this in
  let y := virtual_light_sensor_position_y_offset_ this in
  let goal := goal_pose_ this in
  exec (timer_callback this) this
  = Some (tt, this,
          match goal with
          | Some _ =>
              [EvLock; EvGetGoal goal; EvGetGoal goal; EvGetGoal goal;
               EvPublish (get_twist (motion_model_ this)
                            (emulate_light_sensor goal x (y * -1))
                            (emulate_light_sensor goal x y));
               EvUnlock]
          | None => [EvLock; EvGetGoal goal; EvPublish Twist_default; EvUnlock]
          end).
Proof.
  intros Hfree x y goal. subst x y goal.
  assert (Hback : with_mutex (with_mutex this true) false = this)
    by (destruct this; cbn in *; subst; reflexivity).
  unfold timer_callback. cbn. rewrite Hfree. cbn.
  destruct (goal_pose_ this) as [g|] eqn:Hg; cbn; rewrite ?Hg; cbn;
    rewrite Hback; reflexivity.
Qed.

Lemma exec_timer_callback_seeking (this : BraitenbergVehicleController) (g : Pose) :
  mutex_ this = false ->
  goal_pose_ this = Some g ->
  exists tr,
    exec (timer_callback this) this = Some (tt, this, tr)
    /\ published tr
       = [get_twist (motion_model_ this)
            (emulate_light_sensor (Some g)
               (virtual_light_sensor_position_x_offset_ this)
               (- virtual_light_sensor_position_y_offset_ this))
            (emulate_light_sensor (Some g)
               (virtual_light_sensor_position_x_offset_ this)
               (virtual_light_sensor_position_y_offset_ this))]
    /\ publish_while_locked false tr = true.
Proof.
  intros Hfree Hg. eexists. split; [|split].
  - apply exec_timer_callback. assumption.
  - cbn zeta. rewrite Hg. cbn.
    replace (virtual_light_sensor_position_y_offset_ this * -1)
      with (- virtual_light_sensor_position_y_offset_ this) by ring.
    reflexivity.
  - cbn zeta. rewrite Hg. reflexivity.
Qed.

Lemma exec_timer_callback_idle (this : BraitenbergVehicleController) :
  mutex_ this = false ->
  goal_pose_ this = None ->
  exec (timer_callback this) this
  = Some (tt, this, [EvLock; EvGetGoal None; EvPublish Twist_default; EvUnlock]).
Proof.
  intros Hfree Hg. rewrite exec_timer_callback by assumption.
  cbn zeta. rewrite Hg. reflexivity.
Qed.

(** ** The goal update *)

(** C1: after [goal_pose_callback] has processed a message with pose
    [P] and frame id [F], the stored goal is [Some P] exactly when [F]
    is the configured base frame id; for every other frame it is
    [None].  This holds whatever goal was held before; the callback
    always returns, with the mutex released and no other member
    changed. *)
Theorem goal_pose_callback_frame_gate :
  forall (this : BraitenbergVehicleController) (msg : PoseStamped),
    mutex_ this = false ->
    let P := pose msg in
    let F := frame_id (header msg) in
    exists c' tr,
      exec (goal_pose_callback this msg) this = Some (tt, c', tr)
      /\ (goal_pose_ c' = Some P <-> F = base_link_frame_id_ this)
      /\ (goal_pose_ c' = None <-> F <> base_link_frame_id_ this)
      /\ c' = with_goal_pose this (goal_pose_ c').
Proof.
  intros this msg Hfree P F. subst P F.
  eexists; eexists. split.
  - apply exec_goal_pose_callback. assumption.
  - destruct (String.eqb_spec (frame_id (header msg)) (base_link_frame_id_ this))
      as [Heq|Hne];
      destruct this; cbn in *; repeat split; intros; congruence.
Qed.

Lemma goal_pose_callback_frame_gate_witness :
  let P := pose_at (11 / 10) (1 / 10) in
  exists c' tr,
    exec (goal_pose_callback default_controller (goal_msg "map"%string P))
         default_controller = Some (tt, c', tr)
    /\ (goal_pose_ c' = Some P <-> "map"%string = "base_link"%string)
    /\ (goal_pose_ c' = None <-> "map"%string <> "base_link"%string)
    /\ c' = with_goal_pose default_controller (goal_pose_ c').
Proof.
  apply (goal_pose_callback_frame_gate default_controller
           (goal_msg "map"%string (pose_at (11 / 10) (1 / 10)))).
  reflexivity.
Defined.

(** The two frames of the scenario: a goal in ["base_link"] is stored, a
    goal in ["map"] clears the one that was stored. *)
Example goal_in_base_link_accepted :
  exec (goal_pose_callback default_controller
          (goal_msg "base_link"%string (pose_at (11 / 10) (1 / 10))))
       default_controller
  = Some (tt,
          with_goal_pose default_controller (Some (pose_at (11 / 10) (1 / 10))),
          [EvLock; EvSetGoal (Some (pose_at (11 / 10) (1 / 10))); EvUnlock]).
Proof. reflexivity. Qed.

Example goal_in_map_rejected :
  exec (goal_pose_callback
          (with_goal_pose default_controller (Some (pose_at (11 / 10) (1 / 10))))
          (goal_msg "map"%string (pose_at 2 3)))
       (with_goal_pose default_controller (Some (pose_at (11 / 10) (1 / 10))))
  = Some (tt, default_controller, [EvLock; EvSetGoal None; EvUnlock]).
Proof. reflexivity. Qed.

(** ** The control tick *)

(** C3: on a tick with a goal held, the first (left) input of the
    motion model is [emulate_light_sensor (x_offset, - y_offset)] and the
    second (right) input is [emulate_light_sensor (x_offset, y_offset)]. *)
Theorem timer_callback_crossed_wiring :
  forall (this : BraitenbergVehicleController) (g : Pose),
    mutex_ this = false ->
    goal_pose_ this = Some g ->
    let x := virtual_light_sensor_position_x_offset_ this in
    let y := virtual_light_sensor_position_y_offset_ this in
    exists c' tr,
      exec (timer_callback this) this = Some (tt, c', tr)
      /\ published tr
         = [get_twist (motion_model_ this)
              (emulate_light_sensor (Some g) x (- y))
              (emulate_light_sensor (Some g) x y)].
Proof.
  intros this g Hfree Hg x y.
  destruct (exec_timer_callback_seeking this g Hfree Hg) as (tr & He & Hp & _).
  exists this, tr. split; assumption.
Qed.

Lemma timer_callback_crossed_wiring_witness :
  let this := with_goal_pose default_controller (Some (pose_at (11 / 10) (1 / 10))) in
  exists c' tr,
    exec (timer_callback this) this = Some (tt, c', tr)
    /\ published tr
       = [get_twist recording_model
            (emulate_light_sensor (Some (pose_at (11 / 10) (1 / 10))) (1 / 10) (- (1 / 10)))
            (emulate_light_sensor (Some (pose_at (11 / 10) (1 / 10))) (1 / 10) (1 / 10))].
Proof.
  apply (timer_callback_crossed_wiring
           (with_goal_pose default_controller (Some (pose_at (11 / 10) (1 / 10))))
           (pose_at (11 / 10) (1 / 10)));
    reflexivity.
Defined.

(** C4: every tick publishes exactly one velocity command: the motion
    model's output for the two sensor readings when a goal is held, and
    the command whose linear and angular parts are zero when it is not. *)
Theorem timer_callback_publishes_once :
  forall (this : BraitenbergVehicleController),
    mutex_ this = false ->
    let x := virtual_light_sensor_position_x_offset_ this in
    let y := virtual_light_sensor_position_y_offset_ this in
    exists c' tr cmd,
      exec (timer_callback this) this = Some (tt, c', tr)
      /\ published tr = [cmd]
      /\ match goal_pose_ this with
         | Some g =>
             cmd = get_twist (motion_model_ this)
                     (emulate_light_sensor (Some g) x (- y))
                     (emulate_light_sensor (Some g) x y)
         | None =>
             linear cmd = {| vx := 0; vy := 0; vz := 0 |}
             /\ angular cmd = {| vx := 0; vy := 0; vz := 0 |}
         end.
Proof.
  intros this Hfree x y.
  destruct (goal_pose_ this) as [g|] eqn:Hg.
  - destruct (exec_timer_callback_seeking this g Hfree Hg) as (tr & He & Hp & _).
    exists this, tr. eexists. repeat split; eassumption.
  - exists this. eexists. exists Twist_default. split; [|split].
    + apply exec_timer_callback_idle; assumption.
    + reflexivity.
    + split; reflexivity.
Qed.

Lemma timer_callback_publishes_once_witness :
  exists c' tr cmd,
    exec (timer_callback default_controller) default_controller = Some (tt, c', tr)
    /\ published tr = [cmd]
    /\ linear cmd = {| vx := 0; vy := 0; vz := 0 |}
    /\ angular cmd = {| vx := 0; vy := 0; vz := 0 |}.
Proof.
  apply (timer_callback_publishes_once default_controller).
  reflexivity.
Defined.

(** C6 fails on the object as constructed: its tick sends the one message
    between the lock and the unlock, so with the mutex held. *)
Lemma timer_callback_holds_lock_while_publishing :
  exec (timer_callback default_controller) default_controller
  = Some (tt, default_controller,
          [EvLock; EvGetGoal None; EvPublish Twist_default; EvUnlock])
  /\ publish_while_locked false
       [EvLock; EvGetGoal None; EvPublish Twist_default; EvUnlock] = true.
Proof.
  split.
  - apply exec_timer_callback_idle; reflexivity.
  - reflexivity.
Qed.

(** C6, as the code has it: the tick takes the mutex first, publishes
    its one command while it holds the mutex and releases the mutex
    after that, as its last action; the mutex is free when the tick
    returns.  The scan and the goal callback publish nothing. *)
Theorem timer_callback_publishes_under_lock :
  forall (this : BraitenbergVehicleController) (scan : LaserScan) (msg : PoseStamped),
    mutex_ this = false ->
    (exists c' reads cmd,
        exec (timer_callback this) this
        = Some (tt, c', EvLock :: map EvGetGoal reads ++ [EvPublish cmd; EvUnlock])
        /\ publish_while_locked false
             (EvLock :: map EvGetGoal reads ++ [EvPublish cmd; EvUnlock]) = true
        /\ mutex_ c' = false)
    /\ (exists c' tr,
           exec (scan_callback this scan) this = Some (tt, c', tr)
           /\ published tr = [] /\ mutex_ c' = false)
    /\ (exists c' tr,
           exec (goal_pose_callback this msg) this = Some (tt, c', tr)
           /\ published tr = [] /\ mutex_ c' = false).
Proof.
  intros this scan msg Hfree. split; [|split].
  - rewrite exec_timer_callback by assumption. cbn zeta.
    exists this.
    destruct (goal_pose_ this) as [g|].
    + exists [Some g; Some g; Some g]. eexists.
      split; [reflexivity | split; [reflexivity | assumption]].
    + exists [None]. eexists.
      split; [reflexivity | split; [reflexivity | assumption]].
  - rewrite exec_scan_callback by assumption.
    exists this. eexists. split; [reflexivity | split; [reflexivity | assumption]].
  - rewrite exec_goal_pose_callback by assumption.
    eexists; eexists. split; [reflexivity|]. split; [reflexivity|].
    destruct this; cbn in *; assumption.
Qed.

Lemma timer_callback_publishes_under_lock_witness :
  (exists c' reads cmd,
      exec (timer_callback default_controller) default_controller
      = Some (tt, c', EvLock :: map EvGetGoal reads ++ [EvPublish cmd; EvUnlock])
      /\ publish_while_locked false
           (EvLock :: map EvGetGoal reads ++ [EvPublish cmd; EvUnlock]) = true
      /\ mutex_ c' = false)
  /\ (exists c' tr,
         exec (scan_callback default_controller empty_scan) default_controller
         = Some (tt, c', tr)
         /\ published tr = [] /\ mutex_ c' = false)
  /\ (exists c' tr,
         exec (goal_pose_callback default_controller
                 (goal_msg "base_link"%string (pose_at (11 / 10) (1 / 10))))
              default_controller = Some (tt, c', tr)
         /\ published tr = [] /\ mutex_ c' = false).
Proof.
  apply (timer_callback_publishes_under_lock default_controller).
  reflexivity.
Defined.

(** ** The scan update *)

(** C8: [scan_callback] returns the object as it found it, goal, frame
    id, sensor offsets and motion model included, and all it does is
    lock and unlock the mutex. *)
Theorem scan_callback_changes_nothing :
  forall (this : BraitenbergVehicleController) (scan : LaserScan),
    mutex_ this = false ->
    exec (scan_callback this scan) this = Some (tt, this, [EvLock; EvUnlock]).
Proof.
  intros this scan Hfree. apply exec_scan_callback. assumption.
Qed.

Lemma scan_callback_changes_nothing_witness :
  exec (scan_callback default_controller empty_scan) default_controller
  = Some (tt, default_controller, [EvLock; EvUnlock]).
Proof.
  apply (scan_callback_changes_nothing default_controller empty_scan).
  reflexivity.
Defined.

(** ** The sensor law *)

(** The scenario of the specification: goal at (1.1, 0.1), sensors at
    (0.1, 0.1) and (0.1, -0.1).  The left sensor is at distance 1 and
    reads 1; the right one is at distance [sqrt 1.04] and reads about
    0.9806. *)
Example scenario_left_sensor :
  emulate_light_sensor (Some (pose_at (11 / 10) (1 / 10))) (1 / 10) (1 / 10) = 1.
Proof.
  unfold emulate_light_sensor, pose_at. cbn.
  replace (11 / 10 - 1 / 10) with 1 by lra.
  replace (1 / 10 - 1 / 10) with 0 by lra.
  rewrite hypot_axis by lra.
  pose proof epsilon_lt_half.
  destruct (Rle_dec (Rabs 1) epsilon) as [Hle|_].
  - rewrite Rabs_pos_eq in Hle by lra. lra.
  - lra.
Qed.

Example scenario_right_sensor :
  9805 / 10000 < emulate_light_sensor (Some (pose_at (11 / 10) (1 / 10))) (1 / 10) (- (1 / 10))
  < 9806 / 10000.
Proof.
  unfold emulate_light_sensor, pose_at. cbn.
  set (d := hypot _ _).
  assert (Hd0 : 0 <= d) by apply hypot_nonneg.
  assert (Hsq : d * d = 26 / 25).
  { unfold d, hypot. rewrite sqrt_sqrt by nra. lra. }
  assert (Hlo : 10197 / 10000 < d) by nra.
  assert (Hhi : d < 10199 / 10000) by nra.
  pose proof epsilon_lt_half.
  destruct (Rle_dec (Rabs d) epsilon) as [Hle|_].
  - rewrite Rabs_pos_eq in Hle by lra. lra.
  - assert (Hinv : 1 / d = d * (25 / 26)) by (field_simplify_eq; lra).
    rewrite Hinv. nra.
Qed.


(** C5: with the goal at (0.75, 0.25) and the sensor at (0.25, 0.25) the
    distance is 0.5 and the reading is 2, which is above 1. *)
Theorem emulate_light_sensor_above_one :
  emulate_light_sensor (Some (pose_at (3 / 4) (1 / 4))) (1 / 4) (1 / 4) = 2
  /\ 1 < 2.
Proof.
  split; [|lra].
  unfold emulate_light_sensor, pose_at. cbn.
  replace (3 / 4 - 1 / 4) with (/ 2) by lra.
  replace (1 / 4 - 1 / 4) with 0 by lra.
  rewrite hypot_axis by lra.
  pose proof epsilon_lt_half.
  destruct (Rle_dec (Rabs (/ 2)) epsilon) as [Hle|_].
  - rewrite Rabs_pos_eq in Hle by lra. lra.
  - lra.
Qed.

(** ** Concurrent callbacks *)

Lemma upd_same (pool : nat -> Thread) (i : nat) (t : Thread) : upd pool i t i = t.
Proof. unfold upd. now rewrite Nat.eqb_refl. Qed.

Lemma upd_other (pool : nat -> Thread) (i j : nat) (t : Thread) :
  j <> i -> upd pool i t j = pool j.
Proof. intros H. unfold upd. now apply Nat.eqb_neq in H as ->. Qed.

(** A step of thread [i] that leaves the owner of the mutex alone keeps
    every other thread in order. *)
Lemma thread_ok_frame (s s' : System) (i j : nat) (t : Thread) :
  j <> i ->
  sys_pool s' = upd (sys_pool s) i t ->
  holds s' j = holds s j ->
  thread_ok s j -> thread_ok s' j.
Proof.
  intros Hne Hpool Hholds. unfold thread_ok.
  rewrite Hpool, upd_other, Hholds by assumption. trivial.
Qed.

(** A thread that is running a command is not the one in the middle of
    an assignment, so its step keeps the witness of a torn cell. *)
Lemma cell_ok_frame (s s' : System) (i : nat) (p : Prog unit) (t : Thread) :
  sys_pool s i = Run p ->
  sys_pool s' = upd (sys_pool s) i t ->
  sys_goal s' = sys_goal s ->
  cell_ok s -> cell_ok s'.
Proof.
  intros Hrun Hpool Hgoal. unfold cell_ok. rewrite Hgoal.
  destruct (sys_goal s) as [|old new]; [trivial|].
  intros (j & g & k & Hj). exists j, g, k.
  rewrite Hpool, upd_other; [assumption|].
  intros ->. congruence.
Qed.

Lemma holds_unique (s : System) (i j : nat) :
  holds s i = true -> holds s j = true -> i = j.
Proof.
  unfold holds. destruct (sys_owner s) as [o|]; [|discriminate].
  intros Hi Hj. apply Nat.eqb_eq in Hi, Hj. congruence.
Qed.

(** Whoever holds the mutex finds the goal whole. *)
Lemma holder_sees_whole (s : System) (i : nat) (p : Prog unit) :
  (forall j, thread_ok s j) -> cell_ok s ->
  sys_pool s i = Run p -> holds s i = true ->
  exists g, sys_goal s = Whole g.
Proof.
  intros Hth Hcell Hrun Hi. unfold cell_ok in Hcell.
  destruct (sys_goal s) as [g|old new]; [now exists g|].
  destruct Hcell as (j & g & k & Hj).
  pose proof (Hth j) as Hokj. unfold thread_ok in Hokj. rewrite Hj in Hokj.
  destruct Hokj as [Hhj _].
  pose proof (holds_unique s i j Hi Hhj). subst j. congruence.
Qed.

Ltac other_thread Hth :=
  eapply thread_ok_frame; [eassumption | reflexivity | reflexivity | apply Hth].

Ltac same_cell :=
  eapply cell_ok_frame; [eassumption | reflexivity | reflexivity | assumption].

(** Every step of every thread keeps the invariant. *)
Lemma disciplined_step (i : nat) (junk : option Pose) (s : System) :
  disciplined s -> disciplined (sched_step i junk s).
Proof.
  intros (Hth & Hcell & Htorn).
  pose proof (Hth i) as Hi. unfold thread_ok in Hi.
  unfold sched_step.
  destruct (sys_pool s i) as [p|g k] eqn:Hrun.
  - destruct p as [a|k|k|k|g k|t k]; cbn in Hi.
    + (* Ret *) repeat split; assumption.
    + (* Lock *)
      destruct Hi as [Hfree Hk].
      destruct (sys_owner s) as [o|] eqn:Ho; [repeat split; assumption|].
      split; [|split].
      * intros j. destruct (Nat.eq_dec j i) as [->|Hne].
        -- unfold thread_ok, holds. cbn. rewrite upd_same, Nat.eqb_refl. exact Hk.
        -- pose proof (Hth j) as Hj. unfold thread_ok, holds in *. cbn.
           rewrite upd_other by assumption. rewrite Ho in Hj.
           assert (Nat.eqb i j = false) as -> by (apply Nat.eqb_neq; congruence).
           exact Hj.
      * same_cell.
      * assumption.
    + (* Unlock *)
      destruct Hi as [Hheld Hk].
      unfold holds in Hheld.
      destruct (sys_owner s) as [o|] eqn:Ho; [|discriminate].
      rewrite Hheld. apply Nat.eqb_eq in Hheld. subst o.
      split; [|split].
      * intros j. destruct (Nat.eq_dec j i) as [->|Hne].
        -- unfold thread_ok, holds. cbn. rewrite upd_same. exact Hk.
        -- pose proof (Hth j) as Hj. unfold thread_ok, holds in *. cbn.
           rewrite upd_other by assumption. rewrite Ho in Hj.
           assert (Nat.eqb i j = false) as Hij by (apply Nat.eqb_neq; congruence).
           rewrite Hij in Hj. exact Hj.
      * same_cell.
      * assumption.
    + (* GetGoal *)
      destruct Hi as [Hheld Hk].
      destruct (holder_sees_whole s i _ Hth Hcell Hrun Hheld) as [g Hg].
      rewrite Hg.
      split; [|split].
      * intros j. destruct (Nat.eq_dec j i) as [->|Hne].
        -- unfold thread_ok. cbn. rewrite upd_same.
           change (guarded (holds s i) (k g)). rewrite Hheld. apply Hk.
        -- other_thread Hth.
      * eapply cell_ok_frame; [exact Hrun | reflexivity | cbn; symmetry; exact Hg | exact Hcell].
      * assumption.
    + (* SetGoal *)
      destruct Hi as [Hheld Hk].
      split; [|split].
      * intros j. destruct (Nat.eq_dec j i) as [->|Hne].
        -- unfold thread_ok. cbn. rewrite upd_same. split; [exact Hheld | exact Hk].
        -- other_thread Hth.
      * unfold cell_ok. cbn. exists i, g, k. apply upd_same.
      * assumption.
    + (* Publish *)
      split; [|split].
      * intros j. destruct (Nat.eq_dec j i) as [->|Hne].
        -- unfold thread_ok. cbn. rewrite upd_same. exact Hi.
        -- other_thread Hth.
      * same_cell.
      * assumption.
  - (* Storing *)
    destruct Hi as [Hheld Hk].
    split; [|split].
    + intros j. destruct (Nat.eq_dec j i) as [->|Hne].
      * unfold thread_ok. cbn. rewrite upd_same.
        change (guarded (holds s i) k). rewrite Hheld. exact Hk.
      * other_thread Hth.
    + exact I.
    + assumption.
Qed.

Lemma disciplined_run (sched : list (nat * option Pose)) (s : System) :
  disciplined s -> disciplined (run sched s).
Proof.
  revert s. induction sched as [|[i junk] sched IH]; intros s Hs; cbn.
  - exact Hs.
  - apply IH. apply disciplined_step. exact Hs.
Qed.

Lemma scan_callback_guarded (this : BraitenbergVehicleController) (scan : LaserScan) :
  guarded false (scan_callback this scan).
Proof. cbn. auto. Qed.

Lemma goal_pose_callback_guarded (this : BraitenbergVehicleController) (msg : PoseStamped) :
  guarded false (goal_pose_callback this msg).
Proof.
  unfold goal_pose_callback.
  destruct (String.eqb _ _); cbn; auto.
Qed.

Lemma timer_callback_guarded (this : BraitenbergVehicleController) :
  guarded false (timer_callback this).
Proof.
  cbn. split; [reflexivity|]. split; [reflexivity|].
  intros [g|]; cbn; auto.
Qed.

Lemma handler_guarded (this : BraitenbergVehicleController) (inv : Invocation) :
  guarded false (handler this inv).
Proof.
  destruct inv; cbn [handler].
  - apply scan_callback_guarded.
  - apply goal_pose_callback_guarded.
  - apply timer_callback_guarded.
Qed.

Lemma disciplined_boot (this : BraitenbergVehicleController)
  (invs : nat -> option Invocation) :
  disciplined (boot this invs).
Proof.
  split; [|split].
  - intros i. unfold thread_ok, holds. cbn.
    destruct (invs i) as [inv|].
    + apply handler_guarded.
    + reflexivity.
  - exact I.
  - reflexivity.
Qed.

(** Without the mutex the model does tear: the read of thread 1 falls
    between the two steps of the assignment of thread 0. *)
Example racing_system_tears :
  sys_torn_reads
    (run [(0%nat, None); (1%nat, None)] (racing_system (Some (pose_at 1 0))))
  = 1%nat.
Proof. reflexivity. Qed.

(** C9: whatever callbacks the executor runs at once and however it
    interleaves their steps, no read of the goal meets a partly written
    value; every callback takes the mutex before it touches the goal
    and has released it when it returns, on every path. *)
Theorem goal_reads_never_torn :
  forall (this : BraitenbergVehicleController)
         (invs : nat -> option Invocation)
         (sched : list (nat * option Pose)),
    sys_torn_reads (run sched (boot this invs)) = 0%nat
    /\ (forall inv : Invocation, guarded false (handler this inv)).
Proof.
  intros this invs sched. split.
  - apply (disciplined_run sched (boot this invs)), disciplined_boot.
  - apply handler_guarded.
Qed.

(** One thread alone takes the steps of [exec]: run as thread 0 with no
    other thread moving, a command sequence that [exec] completes ends
    with the same goal, the same state of the mutex and the same
    messages. *)
Lemma run_alone_exec (p : Prog unit) :
  forall (c c' : BraitenbergVehicleController) (tr : list Event) (s : System),
    exec p c = Some (tt, c', tr) ->
    sys_pool s 0%nat = Run p ->
    sys_goal s = Whole (goal_pose_ c) ->
    sys_owner s = owner_of c ->
    exists n,
      let s' := run (repeat (0%nat, None) n) s in
      sys_pool s' 0%nat = Run (Ret tt)
      /\ sys_goal s' = Whole (goal_pose_ c')
      /\ sys_owner s' = owner_of c'
      /\ sys_published s' = sys_published s ++ published tr
      /\ sys_torn_reads s' = sys_torn_reads s.
Proof.
  induction p as [[]|k IH|k IH|k IH|g k IH|t k IH]; intros c c' tr s He Hp Hg Ho; cbn in He.
  - injection He as <- <-. exists 0%nat. cbn.
    rewrite app_nil_r. auto.
  - destruct (mutex_ c) eqn:Hm; [discriminate|].
    destruct (exec k (with_mutex c true)) as [[[[] c1] tr1]|] eqn:Hk; [|discriminate].
    injection He as <- <-.
    set (s1 := sched_step 0 None s).
    assert (Hs1 : s1 = {| sys_goal := sys_goal s; sys_owner := Some 0%nat;
                          sys_pool := upd (sys_pool s) 0 (Run k);
                          sys_published := sys_published s;
                          sys_torn_reads := sys_torn_reads s |}).
    { unfold s1, sched_step. rewrite Hp, Ho. unfold owner_of. rewrite Hm. reflexivity. }
    destruct (IH (with_mutex c true) c1 tr1 s1 Hk) as (n & H1 & H2 & H3 & H4 & H5);
      try (rewrite Hs1; cbn; auto using upd_same).
    exists (S n). cbn. fold s1. rewrite Hs1 in *. cbn in *. auto.
  - destruct (mutex_ c) eqn:Hm; [|discriminate].
    destruct (exec k (with_mutex c false)) as [[[[] c1] tr1]|] eqn:Hk; [|discriminate].
    injection He as <- <-.
    set (s1 := sched_step 0 None s).
    assert (Hs1 : s1 = {| sys_goal := sys_goal s; sys_owner := None;
                          sys_pool := upd (sys_pool s) 0 (Run k);
                          sys_published := sys_published s;
                          sys_torn_reads := sys_torn_reads s |}).
    { unfold s1, sched_step. rewrite Hp, Ho. unfold owner_of. rewrite Hm. reflexivity. }
    destruct (IH (with_mutex c false) c1 tr1 s1 Hk) as (n & H1 & H2 & H3 & H4 & H5);
      try (rewrite Hs1; cbn; auto using upd_same).
    exists (S n). cbn. fold s1. rewrite Hs1 in *. cbn in *. auto.
  - destruct (exec (k (goal_pose_ c)) c) as [[[[] c1] tr1]|] eqn:Hk; [|discriminate].
    injection He as <- <-.
    set (s1 := sched_step 0 None s).
    assert (Hs1 : s1 = {| sys_goal := sys_goal s; sys_owner := sys_owner s;
                          sys_pool := upd (sys_pool s) 0 (Run (k (goal_pose_ c)));
                          sys_published := sys_published s;
                          sys_torn_reads := sys_torn_reads s |}).
    { unfold s1, sched_step. rewrite Hp, Hg. reflexivity. }
    destruct (IH (goal_pose_ c) c c1 tr1 s1 Hk) as (n & H1 & H2 & H3 & H4 & H5);
      try (rewrite Hs1; cbn; auto using upd_same).
    exists (S n). cbn. fold s1. rewrite Hs1 in *. cbn in *. auto.
  - destruct (exec k (with_goal_pose c g)) as [[[[] c1] tr1]|] eqn:Hk; [|discriminate].
    injection He as <- <-.
    set (s1 := sched_step 0 None s).
    assert (Hs1 : s1 = {| sys_goal := Torn (cell_old (sys_goal s)) g; sys_owner := sys_owner s;
                          sys_pool := upd (sys_pool s) 0 (Storing g k);
                          sys_published := sys_published s;
                          sys_torn_reads := sys_torn_reads s |}).
    { unfold s1, sched_step. rewrite Hp. reflexivity. }
    set (s2 := sched_step 0 None s1).
    assert (Hs2 : s2 = {| sys_goal := Whole g; sys_owner := sys_owner s;
                          sys_pool := upd (sys_pool s1) 0 (Run k);
                          sys_published := sys_published s;
                          sys_torn_reads := sys_torn_reads s |}).
    { unfold s2, sched_step. rewrite Hs1. reflexivity. }
    destruct (IH (with_goal_pose c g) c1 tr1 s2 Hk) as (n & H1 & H2 & H3 & H4 & H5);
      try (rewrite Hs2; cbn; auto using upd_same).
    exists (S (S n)). cbn. fold s1. fold s2. rewrite Hs2 in *. cbn in *. auto.
  - destruct (exec k c) as [[[[] c1] tr1]|] eqn:Hk; [|discriminate].
    injection He as <- <-.
    set (s1 := sched_step 0 None s).
    assert (Hs1 : s1 = {| sys_goal := sys_goal s; sys_owner := sys_owner s;
                          sys_pool := upd (sys_pool s) 0 (Run k);
                          sys_published := sys_published s ++ [t];
                          sys_torn_reads := sys_torn_reads s |}).
    { unfold s1, sched_step. rewrite Hp. reflexivity. }
    destruct (IH c c1 tr1 s1 Hk) as (n & H1 & H2 & H3 & H4 & H5);
      try (rewrite Hs1; cbn; auto using upd_same).
    exists (S n). cbn. fold s1. rewrite Hs1 in *. cbn in *.
    rewrite <- app_assoc in H4. cbn in H4. auto.
Qed.

(** A goal update and a tick side by side.  The tick asks for the mutex
    while the update holds it and has to wait; once the update is done
    the tick reads the new goal and publishes the command for it. *)
Example update_then_tick_interleaved :
  let p := pose_at (11 / 10) (1 / 10) in
  let s := run [(0, None); (1, None); (0, None); (1, None); (0, None); (0, None);
                (1, None); (1, None); (1, None); (1, None); (1, None); (1, None)]%nat
               (boot default_controller
                  (fun i => match i with
                            | 0%nat => Some (OnGoalPose (goal_msg "base_link"%string p))
                            | 1%nat => Some OnTimer
                            | _ => None
                            end)) in
  sys_goal s = Whole (Some p)
  /\ sys_owner s = None
  /\ sys_pool s 0%nat = Run (Ret tt)
  /\ sys_pool s 1%nat = Run (Ret tt)
  /\ sys_published s
     = [get_twist recording_model
          (emulate_light_sensor (Some p) (1 / 10) (1 / 10 * -1))
          (emulate_light_sensor (Some p) (1 / 10) (1 / 10))]
  /\ sys_torn_reads s = 0%nat.
Proof. cbn. repeat split. Qed.

(** ** More on the sensor law *)




(** ** Steering *)

Lemma hypot_opp_r (a b : R) : hypot a (- b) = hypot a b.
Proof. unfold hypot. f_equal. ring. Qed.

(** X4: with the goal on the x axis of the vehicle (y = 0) the tick hands
    the same value to both inputs of the motion model. *)
Theorem timer_callback_goal_ahead_symmetric :
  forall (this : BraitenbergVehicleController) (g : Pose),
    mutex_ this = false ->
    goal_pose_ this = Some g ->
    py (position g) = 0 ->
    exists c' tr reading,
      exec (timer_callback this) this = Some (tt, c', tr)
      /\ published tr = [get_twist (motion_model_ this) reading reading]
      /\ reading
         = emulate_light_sensor (Some g)
             (virtual_light_sensor_position_x_offset_ this)
             (virtual_light_sensor_position_y_offset_ this).
Proof.
  intros this g Hfree Hg Hy.
  destruct (exec_timer_callback_seeking this g Hfree Hg) as (tr & He & Hp & _).
  exists this, tr. eexists. split; [exact He|]. split; [|reflexivity].
  rewrite Hp. f_equal. f_equal.
  unfold emulate_light_sensor. cbn zeta. rewrite Hy.
  set (x := virtual_light_sensor_position_x_offset_ this).
  set (y := virtual_light_sensor_position_y_offset_ this).
  replace (0 - - y) with (- (0 - y)) by ring.
  rewrite hypot_opp_r. reflexivity.
Qed.

Lemma timer_callback_goal_ahead_symmetric_witness :
  let this := with_goal_pose default_controller (Some (pose_at 2 0)) in
  exists c' tr reading,
    exec (timer_callback this) this = Some (tt, c', tr)
    /\ published tr = [get_twist recording_model reading reading]
    /\ reading = emulate_light_sensor (Some (pose_at 2 0)) (1 / 10) (1 / 10).
Proof.
  apply (timer_callback_goal_ahead_symmetric
           (with_goal_pose default_controller (Some (pose_at 2 0))) (pose_at 2 0));
    reflexivity.
Defined.

(** ** Sequences of invocations *)

Lemma published_app (a b : list Event) :
  published (a ++ b) = published a ++ published b.
Proof.
  induction a as [|e a IH]; [reflexivity|].
  destruct e; cbn; rewrite IH; reflexivity.
Qed.

(** What one invocation does to the object and what it publishes. *)
Lemma exec_handler (c : BraitenbergVehicleController) (inv : Invocation) :
  mutex_ c = false ->
  exists tr,
    exec (handler c inv) c
    = Some (tt,
            match inv with
            | OnGoalPose msg => with_goal_pose c (gated_goal c msg)
            | _ => c
            end,
            tr)
    /\ published tr
       = match inv with
         | OnTimer => [tick_command c (goal_pose_ c)]
         | _ => []
         end.
Proof.
  intros Hfree. destruct inv as [scan|msg|]; cbn [handler].
  - eexists. split; [apply exec_scan_callback; assumption | reflexivity].
  - eexists. split; [apply exec_goal_pose_callback; assumption | reflexivity].
  - eexists. split; [apply exec_timer_callback; assumption|].
    cbn zeta. unfold tick_command. destruct (goal_pose_ c); reflexivity.
Qed.

Lemma exec_all_app (c : BraitenbergVehicleController) (a b : list Invocation) :
  exec_all c (a ++ b)
  = match exec_all c a with
    | Some (c1, tr1) =>
        match exec_all c1 b with
        | Some (c2, tr2) => Some (c2, tr1 ++ tr2)
        | None => None
        end
    | None => None
    end.
Proof.
  revert c. induction a as [|inv a IH]; intros c; cbn.
  - destruct (exec_all c b) as [[c2 tr2]|]; reflexivity.
  - destruct (exec (handler c inv) c) as [[[u c1] tr1]|]; [|reflexivity].
    rewrite IH.
    destruct (exec_all c1 a) as [[c2 tr2]|]; [|reflexivity].
    destruct (exec_all c2 b) as [[c3 tr3]|]; [|reflexivity].
    now rewrite app_assoc.
Qed.

Lemma with_goal_pose_twice (c : BraitenbergVehicleController) (g g' : option Pose) :
  with_goal_pose (with_goal_pose c g) g' = with_goal_pose c g'.
Proof. reflexivity. Qed.

Lemma exec_all_runs (c : BraitenbergVehicleController) (invs : list Invocation) :
  mutex_ c = false ->
  exists c' tr,
    exec_all c invs = Some (c', tr)
    /\ c' = with_goal_pose c (goal_pose_ c')
    /\ List.length (published tr) = ticks invs.
Proof.
  revert c. induction invs as [|inv invs IH]; intros c Hfree.
  - exists c, []. cbn. rewrite with_goal_pose_same. auto.
  - destruct (exec_handler c inv Hfree) as (tr1 & He & Hp).
    set (c1 := match inv with
               | OnGoalPose msg => with_goal_pose c (gated_goal c msg)
               | _ => c
               end) in *.
    assert (Hc1 : c1 = with_goal_pose c (goal_pose_ c1)).
    { subst c1. destruct inv; cbn; rewrite ?with_goal_pose_same; reflexivity. }
    assert (Hfree1 : mutex_ c1 = false) by (rewrite Hc1; exact Hfree).
    destruct (IH c1 Hfree1) as (c2 & tr2 & He2 & Hc2 & Hn).
    exists c2, (tr1 ++ tr2). cbn [exec_all]. rewrite He, He2.
    split; [reflexivity|]. split.
    + rewrite Hc2, Hc1. reflexivity.
    + rewrite published_app, length_app, Hp, Hn. unfold ticks.
      destruct inv; reflexivity.
Qed.

(** X6: from an object whose mutex is free, every sequence of
    invocations runs to completion; afterwards only [goal_pose_] can
    differ (the mutex is free again, frame id, offsets and motion model
    are the same) and exactly one message has been published per timer
    invocation. *)
Theorem exec_all_completes :
  forall (c : BraitenbergVehicleController) (invs : list Invocation),
    mutex_ c = false ->
    exists c' tr,
      exec_all c invs = Some (c', tr)
      /\ c' = with_goal_pose c (goal_pose_ c')
      /\ List.length (published tr) = ticks invs.
Proof.
  intros c invs Hfree. apply exec_all_runs. exact Hfree.
Qed.

Lemma exec_all_completes_witness :
  exists c' tr,
    exec_all default_controller
      [OnTimer; OnGoalPose (goal_msg "base_link"%string (pose_at 2 0));
       OnScan empty_scan; OnTimer]
    = Some (c', tr)
    /\ c' = with_goal_pose default_controller (goal_pose_ c')
    /\ List.length (published tr) = 2%nat.
Proof.
  apply (exec_all_completes default_controller
           [OnTimer; OnGoalPose (goal_msg "base_link"%string (pose_at 2 0));
            OnScan empty_scan; OnTimer]).
  reflexivity.
Defined.

Lemma exec_all_without_goal_messages
  (c : BraitenbergVehicleController) (invs : list Invocation) :
  mutex_ c = false ->
  forallb (fun inv => negb (is_goal_pose inv)) invs = true ->
  exists tr,
    exec_all c invs = Some (c, tr)
    /\ published tr = repeat (tick_command c (goal_pose_ c)) (ticks invs).
Proof.
  intros Hfree. induction invs as [|inv invs IH]; intros Hno.
  - exists []. split; reflexivity.
  - cbn in Hno. apply andb_true_iff in Hno as [Hinv Hrest].
    destruct (IH Hrest) as (tr2 & He2 & Hp2).
    destruct (exec_handler c inv Hfree) as (tr1 & He1 & Hp1).
    exists (tr1 ++ tr2). cbn [exec_all]. rewrite He1.
    destruct inv as [scan|msg|]; try discriminate; rewrite He2;
      (split; [reflexivity|]); rewrite published_app, Hp1, Hp2; reflexivity.
Qed.

(** X7: scans and ticks leave the object as it is, and as long as no
    goal message arrives every tick publishes the same command, the one
    for the goal held. *)
Theorem ticks_repeat_command :
  forall (c : BraitenbergVehicleController) (invs : list Invocation),
    mutex_ c = false ->
    forallb (fun inv => negb (is_goal_pose inv)) invs = true ->
    exists tr,
      exec_all c invs = Some (c, tr)
      /\ published tr = repeat (tick_command c (goal_pose_ c)) (ticks invs).
Proof.
  intros c invs Hfree Hno. apply exec_all_without_goal_messages; assumption.
Qed.

Lemma ticks_repeat_command_witness :
  exists tr,
    exec_all default_controller [OnTimer; OnScan empty_scan; OnTimer]
    = Some (default_controller, tr)
    /\ published tr = repeat (tick_command default_controller None) 2.
Proof.
  apply (ticks_repeat_command default_controller [OnTimer; OnScan empty_scan; OnTimer]);
    reflexivity.
Defined.

(** X8: the last goal message decides.  Whatever was processed before
    it, and whatever scans and ticks follow it, the goal held at the end
    is the pose of the last goal message if its frame id is the base
    frame id, and none otherwise. *)
Theorem last_goal_message_wins :
  forall (c : BraitenbergVehicleController)
         (before : list Invocation) (msg : PoseStamped) (after : list Invocation),
    mutex_ c = false ->
    forallb (fun inv => negb (is_goal_pose inv)) after = true ->
    exists c' tr,
      exec_all c (before ++ OnGoalPose msg :: after) = Some (c', tr)
      /\ goal_pose_ c'
         = if String.eqb (frame_id (header msg)) (base_link_frame_id_ c)
           then Some (pose msg) else None.
Proof.
  intros c before msg after Hfree Hno.
  destruct (exec_all_runs c before Hfree) as (c1 & tr1 & He1 & Hc1 & _).
  assert (Hfree1 : mutex_ c1 = false) by (rewrite Hc1; exact Hfree).
  assert (Hbase : base_link_frame_id_ c1 = base_link_frame_id_ c)
    by (rewrite Hc1; reflexivity).
  set (c2 := with_goal_pose c1 (gated_goal c1 msg)).
  destruct (exec_handler c1 (OnGoalPose msg) Hfree1) as (tr2 & He2 & _).
  destruct (exec_all_without_goal_messages c2 after Hfree1 Hno) as (tr3 & He3 & _).
  exists c2, (tr1 ++ tr2 ++ tr3).
  rewrite exec_all_app, He1. cbn [exec_all]. rewrite He2. fold c2. rewrite He3.
  split; [reflexivity|].
  unfold c2, gated_goal. cbn. rewrite Hbase. reflexivity.
Qed.

Lemma last_goal_message_wins_witness :
  exists c' tr,
    exec_all default_controller
      ([OnGoalPose (goal_msg "base_link"%string (pose_at 2 0)); OnTimer]
       ++ OnGoalPose (goal_msg "map"%string (pose_at 3 1)) :: [OnTimer])
    = Some (c', tr)
    /\ goal_pose_ c'
       = if String.eqb "map" "base_link" then Some (pose_at 3 1) else None.
Proof.
  apply (last_goal_message_wins default_controller
           [OnGoalPose (goal_msg "base_link"%string (pose_at 2 0)); OnTimer]
           (goal_msg "map"%string (pose_at 3 1)) [OnTimer]);
    reflexivity.
Defined.

(** X9: scan messages do not matter.  A sequence of invocations and the
    same sequence with its scans removed end with the same object and
    publish the same messages. *)
Theorem scans_are_inert :
  forall (c : BraitenbergVehicleController) (invs : list Invocation),
    mutex_ c = false ->
    exists c' tr tr',
      exec_all c invs = Some (c', tr)
      /\ exec_all c (filter (fun inv => negb (is_scan inv)) invs) = Some (c', tr')
      /\ published tr = published tr'.
Proof.
  intros c invs. revert c. induction invs as [|inv invs IH]; intros c Hfree.
  - exists c, [], []. auto.
  - destruct (exec_handler c inv Hfree) as (tr1 & He1 & Hp1).
    set (c1 := match inv with
               | OnGoalPose msg => with_goal_pose c (gated_goal c msg)
               | _ => c
               end) in *.
    assert (Hfree1 : mutex_ c1 = false) by (subst c1; destruct inv; assumption).
    destruct (IH c1 Hfree1) as (c2 & tr2 & tr2' & He2 & He2' & Hp2).
    destruct inv as [scan|msg|].
    + exists c2, (tr1 ++ tr2), tr2'. cbn [exec_all filter is_scan negb].
      rewrite He1, He2. subst c1.
      split; [reflexivity|]. split; [exact He2'|].
      rewrite published_app, Hp1. exact Hp2.
    + exists c2, (tr1 ++ tr2), (tr1 ++ tr2'). cbn [exec_all filter is_scan negb].
      rewrite He1. fold c1. rewrite He2, He2'.
      split; [reflexivity|]. split; [reflexivity|].
      rewrite !published_app, Hp2. reflexivity.
    + exists c2, (tr1 ++ tr2), (tr1 ++ tr2'). cbn [exec_all filter is_scan negb].
      rewrite He1. fold c1. rewrite He2, He2'.
      split; [reflexivity|]. split; [reflexivity|].
      rewrite !published_app, Hp2. reflexivity.
Qed.

Lemma scans_are_inert_witness :
  exists c' tr tr',
    exec_all default_controller
      [OnScan empty_scan; OnGoalPose (goal_msg "base_link"%string (pose_at 2 0));
       OnScan empty_scan; OnTimer]
    = Some (c', tr)
    /\ exec_all default_controller
         (filter (fun inv => negb (is_scan inv))
            [OnScan empty_scan; OnGoalPose (goal_msg "base_link"%string (pose_at 2 0));
             OnScan empty_scan; OnTimer])
       = Some (c', tr')
    /\ published tr = published tr'.
Proof.
  apply (scans_are_inert default_controller
           [OnScan empty_scan; OnGoalPose (goal_msg "base_link"%string (pose_at 2 0));
            OnScan empty_scan; OnTimer]).
  reflexivity.
Defined.

Lemma exec_all_without_accepted_goal
  (c : BraitenbergVehicleController) (invs : list Invocation) :
  mutex_ c = false ->
  goal_pose_ c = None ->
  forallb (fun inv => negb (is_accepted_goal c inv)) invs = true ->
  exists tr,
    exec_all c invs = Some (c, tr)
    /\ published tr = repeat Twist_default (ticks invs).
Proof.
  intros Hfree Hgoal. induction invs as [|inv invs IH]; intros Hno.
  - exists []. split; reflexivity.
  - cbn in Hno. apply andb_true_iff in Hno as [Hinv Hrest].
    destruct (IH Hrest) as (tr2 & He2 & Hp2).
    destruct (exec_handler c inv Hfree) as (tr1 & He1 & Hp1).
    exists (tr1 ++ tr2). cbn [exec_all]. rewrite He1.
    assert (Hsame : match inv with
                    | OnGoalPose msg => with_goal_pose c (gated_goal c msg)
                    | _ => c
                    end = c).
    { destruct inv as [scan|msg|]; try reflexivity.
      unfold gated_goal. cbn in Hinv. apply negb_true_iff in Hinv. rewrite Hinv.
      rewrite <- Hgoal. apply with_goal_pose_same. }
    rewrite Hsame, He2. split; [reflexivity|].
    rewrite published_app, Hp1, Hp2, Hgoal.
    destruct inv; reflexivity.
Qed.

(** X10: the vehicle stays still until a goal in the base frame arrives.
    From an object without a goal, a sequence in which no goal message
    carries the base frame id ends without a goal, and each of its
    ticks publishes the zero command. *)
Theorem idle_until_goal_accepted :
  forall (c : BraitenbergVehicleController) (invs : list Invocation),
    mutex_ c = false ->
    goal_pose_ c = None ->
    forallb (fun inv => negb (is_accepted_goal c inv)) invs = true ->
    exists tr,
      exec_all c invs = Some (c, tr)
      /\ published tr = repeat Twist_default (ticks invs).
Proof.
  intros c invs Hfree Hgoal Hno.
  apply exec_all_without_accepted_goal; assumption.
Qed.

Lemma idle_until_goal_accepted_witness :
  exists tr,
    exec_all default_controller
      [OnTimer; OnGoalPose (goal_msg "map"%string (pose_at 2 0)); OnTimer]
    = Some (default_controller, tr)
    /\ published tr = repeat Twist_default 2.
Proof.
  apply (idle_until_goal_accepted default_controller
           [OnTimer; OnGoalPose (goal_msg "map"%string (pose_at 2 0)); OnTimer]);
    reflexivity.
Defined.

(** X11: a goal message decides the ticks that follow it.  Up to the
    next goal message every tick publishes the command for the pose of
    the message when its frame id is the base frame id, and the zero
    command when it is not, whatever goal was held before. *)
Theorem goal_message_decides_following_ticks :
  forall (c : BraitenbergVehicleController) (msg : PoseStamped)
         (after : list Invocation),
    mutex_ c = false ->
    forallb (fun inv => negb (is_goal_pose inv)) after = true ->
    exists c' tr,
      exec_all c (OnGoalPose msg :: after) = Some (c', tr)
      /\ published tr
         = repeat (if String.eqb (frame_id (header msg)) (base_link_frame_id_ c)
                   then tick_command c (Some (pose msg))
                   else Twist_default)
                  (ticks after).
Proof.
  intros c msg after Hfree Hno.
  set (c1 := with_goal_pose c (gated_goal c msg)).
  destruct (exec_handler c (OnGoalPose msg) Hfree) as (tr1 & He1 & Hp1).
  destruct (exec_all_without_goal_messages c1 after Hfree Hno) as (tr2 & He2 & Hp2).
  exists c1, (tr1 ++ tr2). cbn [exec_all]. rewrite He1. fold c1. rewrite He2.
  split; [reflexivity|].
  rewrite published_app, Hp1, Hp2. cbn [app ticks].
  unfold c1, gated_goal. cbn [goal_pose_ with_goal_pose].
  destruct (String.eqb _ _); reflexivity.
Qed.

Lemma goal_message_decides_following_ticks_witness :
  exists c' tr,
    exec_all default_controller
      (OnGoalPose (goal_msg "base_link"%string (pose_at 2 0)) :: [OnTimer; OnTimer])
    = Some (c', tr)
    /\ published tr
       = repeat (if String.eqb "base_link" "base_link"
                 then tick_command default_controller (Some (pose_at 2 0))
                 else Twist_default) 2.
Proof.
  apply (goal_message_decides_following_ticks default_controller
           (goal_msg "base_link"%string (pose_at 2 0)) [OnTimer; OnTimer]);
    reflexivity.
Defined.

(** ** More on concurrent callbacks *)

Lemma free_mutex_whole (s : System) :
  disciplined s -> sys_owner s = None -> exists g, sys_goal s = Whole g.
Proof.
  intros (Hth & Hcell & _) Hfree. unfold cell_ok in Hcell.
  destruct (sys_goal s) as [g|old new]; [now exists g|].
  destruct Hcell as (j & g & k & Hj).
  pose proof (Hth j) as Hokj. unfold thread_ok, holds in Hokj.
  rewrite Hj, Hfree in Hokj. destruct Hokj as [Hh _]. discriminate.
Qed.

(** A step of thread [i] keeps what is known of another thread [j], as
    long as [j] still holds the mutex or not as before and, if it holds
    it, finds the goal it found before. *)
Lemma thread_coherent_frame
  (this : BraitenbergVehicleController) (ok : option Pose -> Prop)
  (s s' : System) (i j : nat) (t : Thread) :
  j <> i ->
  sys_pool s' = upd (sys_pool s) i t ->
  holds s' j = holds s j ->
  (holds s j = true -> sys_goal s' = sys_goal s) ->
  thread_coherent this ok s j -> thread_coherent this ok s' j.
Proof.
  intros Hne Hpool Hholds Hgoal. unfold thread_coherent.
  rewrite Hpool, upd_other, Hholds by assumption.
  destruct (sys_pool s j) as [p|g k]; [|trivial].
  destruct (holds s j); [|trivial].
  rewrite Hgoal by reflexivity. trivial.
Qed.

Lemma not_both_hold (s : System) (i j : nat) :
  j <> i -> holds s i = true -> holds s j = false.
Proof.
  intros Hne Hi. destruct (holds s j) eqn:Hj; [|reflexivity].
  exfalso. apply Hne. symmetry. eapply holds_unique; eassumption.
Qed.

Ltac other_coherent Hco :=
  eapply thread_coherent_frame;
  [eassumption | reflexivity | reflexivity | reflexivity | apply Hco].

(** Every step of every thread keeps the stronger invariant. *)
Lemma coherent_step
  (this : BraitenbergVehicleController) (ok : option Pose -> Prop)
  (i : nat) (junk : option Pose) (s : System) :
  coherent this ok s -> coherent this ok (sched_step i junk s).
Proof.
  intros (Hd & Hpub & Hcell & Hco).
  split; [apply disciplined_step; exact Hd|].
  pose proof Hd as (Hth & Hcok & _).
  pose proof (Hco i) as Hi. unfold thread_coherent in Hi.
  pose proof (Hth i) as Hgi. unfold thread_ok in Hgi.
  unfold sched_step.
  destruct (sys_pool s i) as [p|g k] eqn:Hrun.
  - destruct p as [a|k|k|k|g k|t k]; cbn in Hgi.
    + (* Ret *) auto.
    + (* Lock *)
      destruct (sys_owner s) as [o|] eqn:Ho; [auto|].
      destruct (free_mutex_whole s Hd Ho) as [g Hg].
      assert (Hhi : holds s i = false) by (unfold holds; rewrite Ho; reflexivity).
      rewrite Hhi in Hi. cbn in Hi. destruct Hi as [_ Hk].
      split; [exact Hpub|]. split; [exact Hcell|].
      intros j. destruct (Nat.eq_dec j i) as [->|Hne].
      * unfold thread_coherent, holds. cbn. rewrite upd_same, Nat.eqb_refl.
        exists g. split; [exact Hg|]. apply Hk.
        unfold cell_known in Hcell. rewrite Hg in Hcell. exact Hcell.
      * eapply thread_coherent_frame;
          [exact Hne | reflexivity | | reflexivity | apply Hco].
        unfold holds. cbn. rewrite Ho. apply Nat.eqb_neq. congruence.
    + (* Unlock *)
      destruct Hgi as [Hheld _]. rewrite Hheld in Hi.
      destruct Hi as (g & Hg & _ & Hk).
      unfold holds in Hheld.
      destruct (sys_owner s) as [o|] eqn:Ho; [|discriminate].
      rewrite Hheld. apply Nat.eqb_eq in Hheld. subst o.
      split; [exact Hpub|]. split; [exact Hcell|].
      intros j. destruct (Nat.eq_dec j i) as [->|Hne].
      * unfold thread_coherent, holds. cbn. rewrite upd_same. exact Hk.
      * eapply thread_coherent_frame;
          [exact Hne | reflexivity | | reflexivity | apply Hco].
        unfold holds. cbn. rewrite Ho. symmetry. apply Nat.eqb_neq. congruence.
    + (* GetGoal *)
      destruct Hgi as [Hheld _]. rewrite Hheld in Hi.
      destruct Hi as (g & Hg & Hk). cbn in Hk.
      rewrite Hg.
      split; [exact Hpub|]. split; [unfold cell_known in *; cbn; rewrite Hg in Hcell; exact Hcell|].
      intros j. destruct (Nat.eq_dec j i) as [->|Hne].
      * unfold thread_coherent. cbn. rewrite upd_same.
        change (if holds s i
                then exists g0, Whole g = Whole g0 /\ governed this ok (Some g0) (k g)
                else governed this ok None (k g)).
        rewrite Hheld. exists g. split; [reflexivity | exact Hk].
      * eapply thread_coherent_frame;
          [exact Hne | reflexivity | reflexivity | | apply Hco].
        intros _. cbn. symmetry. exact Hg.
    + (* SetGoal *)
      destruct Hgi as [Hheld _]. rewrite Hheld in Hi.
      destruct Hi as (g0 & Hg0 & _ & Hokg & Hk).
      split; [exact Hpub|]. split; [exact Hokg|].
      intros j. destruct (Nat.eq_dec j i) as [->|Hne].
      * unfold thread_coherent. cbn. rewrite upd_same. split; assumption.
      * eapply thread_coherent_frame;
          [exact Hne | reflexivity | reflexivity | | apply Hco].
        intros Hj. rewrite (not_both_hold s i j Hne Hheld) in Hj. discriminate.
    + (* Publish *)
      assert (Hboth : command_of this ok t
                      /\ (if holds s i
                          then exists g, sys_goal s = Whole g /\ governed this ok (Some g) k
                          else governed this ok None k)).
      { destruct (holds s i).
        - destruct Hi as (g & Hg & Ht & Hk). split; [exact Ht|]. exists g. auto.
        - destruct Hi as [Ht Hk]. auto. }
      destruct Hboth as [Ht Hk].
      split; [apply Forall_app; split; [exact Hpub | constructor; [exact Ht | constructor]]|].
      split; [exact Hcell|].
      intros j. destruct (Nat.eq_dec j i) as [->|Hne].
      * unfold thread_coherent. cbn. rewrite upd_same. exact Hk.
      * other_coherent Hco.
  - (* Storing *)
    destruct Hgi as [Hheld _]. destruct Hi as [Hokg Hk].
    split; [exact Hpub|]. split; [exact Hokg|].
    intros j. destruct (Nat.eq_dec j i) as [->|Hne].
    + unfold thread_coherent. cbn. rewrite upd_same.
      change (if holds s i
              then exists g0, Whole g = Whole g0 /\ governed this ok (Some g0) k
              else governed this ok None k).
      rewrite Hheld. exists g. split; [reflexivity | exact Hk].
    + eapply thread_coherent_frame;
        [exact Hne | reflexivity | reflexivity | | apply Hco].
      intros Hj. rewrite (not_both_hold s i j Hne Hheld) in Hj. discriminate.
Qed.

Lemma coherent_run
  (this : BraitenbergVehicleController) (ok : option Pose -> Prop)
  (sched : list (nat * option Pose)) (s : System) :
  coherent this ok s -> coherent this ok (run sched s).
Proof.
  revert s. induction sched as [|[i junk] sched IH]; intros s Hs; cbn.
  - exact Hs.
  - apply IH, coherent_step, Hs.
Qed.

Lemma handler_governed
  (this : BraitenbergVehicleController) (ok : option Pose -> Prop) (inv : Invocation) :
  (forall msg, inv = OnGoalPose msg -> ok (gated_goal this msg)) ->
  governed this ok None (handler this inv).
Proof.
  intros Hmsg. destruct inv as [scan|msg|]; cbn [handler].
  - cbn. repeat split; congruence.
  - specialize (Hmsg msg eq_refl). unfold gated_goal in Hmsg.
    unfold goal_pose_callback.
    destruct (String.eqb _ _); cbn; repeat split; auto; congruence.
  - cbn. split; [reflexivity|]. intros g Hg.
    destruct g as [p|]; cbn; (split; [|split; [congruence | reflexivity]]).
    + exists (Some p). split; [exact Hg | reflexivity].
    + exists None. split; [exact Hg | reflexivity].
Qed.

Lemma coherent_boot
  (this : BraitenbergVehicleController) (invs : nat -> option Invocation) :
  coherent this (known_goal this invs) (boot this invs).
Proof.
  split; [apply disciplined_boot|]. split; [constructor|]. split.
  - left. reflexivity.
  - intros i. unfold thread_coherent, holds. cbn.
    destruct (invs i) as [inv|] eqn:Hinv; [|reflexivity].
    apply handler_governed. intros msg ->.
    right. exists i, msg. split; [exact Hinv | reflexivity].
Qed.

(** X12: whatever callbacks run at once and however their steps
    interleave, every message published is the command of a tick for
    one goal: both sensor readings in it are taken from the same goal
    (or it is the zero command for no goal), and that goal is the one
    the object started with or the outcome of the frame check for one of
    the goal messages. *)
Theorem published_commands_come_from_one_goal :
  forall (this : BraitenbergVehicleController)
         (invs : nat -> option Invocation)
         (sched : list (nat * option Pose)),
    Forall (fun t => exists g, known_goal this invs g /\ t = tick_command this g)
           (sys_published (run sched (boot this invs))).
Proof.
  intros this invs sched.
  destruct (coherent_run this _ sched _ (coherent_boot this invs)) as (_ & Hpub & _).
  exact Hpub.
Qed.

(** X13: whenever the mutex is free the goal is whole, no assignment is
    under way, and the goal is the one the object started with or the
    outcome of the frame check for one of the goal messages: ticks and
    scans never change it. *)
Theorem free_mutex_goal_is_whole_and_known :
  forall (this : BraitenbergVehicleController)
         (invs : nat -> option Invocation)
         (sched : list (nat * option Pose)),
    sys_owner (run sched (boot this invs)) = None ->
    exists g,
      sys_goal (run sched (boot this invs)) = Whole g
      /\ known_goal this invs g
      /\ forall i g' k, sys_pool (run sched (boot this invs)) i <> Storing g' k.
Proof.
  intros this invs sched Hfree.
  destruct (coherent_run this _ sched _ (coherent_boot this invs))
    as (Hd & _ & Hcell & _).
  destruct (free_mutex_whole _ Hd Hfree) as [g Hg].
  exists g. split; [exact Hg|]. split.
  - unfold cell_known in Hcell. rewrite Hg in Hcell. exact Hcell.
  - intros i g' k Hst. destruct Hd as (Hth & _ & _).
    pose proof (Hth i) as Hi. unfold thread_ok, holds in Hi.
    rewrite Hst, Hfree in Hi. destruct Hi as [Hh _]. discriminate.
Qed.

Lemma free_mutex_goal_is_whole_and_known_witness :
  let invs := fun i => match i with
                       | 0%nat => Some (OnGoalPose (goal_msg "base_link"%string (pose_at 2 0)))
                       | 1%nat => Some OnTimer
                       | _ => None
                       end in
  let s := run [(0, None); (1, None); (0, None); (0, None); (0, None)]%nat
               (boot default_controller invs) in
  exists g,
    sys_goal s = Whole g
    /\ known_goal default_controller invs g
    /\ forall i g' k, sys_pool s i <> Storing g' k.
Proof.
  apply (free_mutex_goal_is_whole_and_known default_controller
           (fun i => match i with
                     | 0%nat => Some (OnGoalPose (goal_msg "base_link"%string (pose_at 2 0)))
                     | 1%nat => Some OnTimer
                     | _ => None
                     end)
           [(0, None); (1, None); (0, None); (0, None); (0, None)]%nat).
  reflexivity.
Defined.

(** ** No deadlock *)

(** A command sequence is never its own continuation. *)
Lemma continuation_differs (p : Prog unit) :
  (forall k, p = Lock k -> k <> p)
  /\ (forall k, p = Unlock k -> k <> p)
  /\ (forall k g, p = GetGoal k -> k g <> p)
  /\ (forall t k, p = Publish t k -> k <> p).
Proof.
  induction p as [a|k IH|k IH|k IH|g k IH|t k IH];
    (split; [|split; [|split]]);
    try (intros; discriminate).
  - intros k' Hk Heq. injection Hk as <-.
    destruct IH as (IHl & _). exact (IHl _ Heq eq_refl).
  - intros k' Hk Heq. injection Hk as <-.
    destruct IH as (_ & IHu & _). exact (IHu _ Heq eq_refl).
  - intros k' g Hk Heq. injection Hk as <-.
    destruct (IH g) as (_ & _ & IHg & _). exact (IHg _ g Heq eq_refl).
  - intros t' k' Hk Heq. injection Hk as <- <-.
    destruct IH as (_ & _ & _ & IHp). exact (IHp _ _ Heq eq_refl).
Qed.

Lemma step_changes_pool (s s' : System) (i : nat) (t : Thread) :
  sys_pool s' = upd (sys_pool s) i t -> t <> sys_pool s i -> s' <> s.
Proof.
  intros Hpool Hne Heq. apply Hne. rewrite Heq in Hpool.
  rewrite Hpool, upd_same. reflexivity.
Qed.

(** In an orderly system either some thread can take a step that
    changes the system, or every thread has finished. *)
Lemma disciplined_progress (s : System) (i : nat) :
  disciplined s ->
  finished (sys_pool s i) = false ->
  exists j, forall junk, sched_step j junk s <> s.
Proof.
  intros (Hth & _ & _) Hunf.
  assert (Hmove : forall j,
             (holds s j = true \/ sys_owner s = None) ->
             finished (sys_pool s j) = false ->
             forall junk, sched_step j junk s <> s).
  { intros j Hj Hfin junk.
    pose proof (Hth j) as Hok. unfold thread_ok in Hok. unfold sched_step.
    destruct (sys_pool s j) as [p|g k] eqn:Hrun.
    - destruct (continuation_differs p) as (Hl & Hu & Hg & Hp).
      destruct p as [a|k|k|k|g k|t k]; cbn in Hok.
      + discriminate.
      + destruct Hok as [Hheld _].
        destruct Hj as [Hj|Hj]; [congruence|]. rewrite Hj.
        eapply step_changes_pool; [reflexivity|]. rewrite Hrun.
        intros Heq. injection Heq as Heq. exact (Hl k eq_refl Heq).
      + destruct Hok as [Hheld _]. unfold holds in Hheld.
        destruct (sys_owner s) as [o|]; [|discriminate]. rewrite Hheld.
        eapply step_changes_pool; [reflexivity|]. rewrite Hrun.
        intros Heq. injection Heq as Heq. exact (Hu k eq_refl Heq).
      + destruct (sys_goal s) as [g|old new];
          (eapply step_changes_pool; [reflexivity|]; rewrite Hrun;
           intros Heq; injection Heq as Heq; exact (Hg k _ eq_refl Heq)).
      + eapply step_changes_pool; [reflexivity|]. rewrite Hrun. discriminate.
      + eapply step_changes_pool; [reflexivity|]. rewrite Hrun.
        intros Heq. injection Heq as Heq. exact (Hp t k eq_refl Heq).
    - eapply step_changes_pool; [reflexivity|]. rewrite Hrun. discriminate. }
  destruct (sys_owner s) as [o|] eqn:Ho.
  - exists o. apply Hmove.
    + left. unfold holds. rewrite Ho. apply Nat.eqb_refl.
    + pose proof (Hth o) as Hok. unfold thread_ok, holds in Hok.
      rewrite Ho, Nat.eqb_refl in Hok.
      destruct (sys_pool s o) as [[a|k|k|k|g k|t k]|g k]; cbn in *;
        try reflexivity; discriminate.
  - exists i. apply Hmove; [right; reflexivity | exact Hunf].
Qed.

(** X14: the callbacks cannot deadlock.  In every state the interleaved
    system can reach, as long as some callback has not returned, some
    thread can take a step. *)
Theorem callbacks_never_deadlock :
  forall (this : BraitenbergVehicleController)
         (invs : nat -> option Invocation)
         (sched : list (nat * option Pose)) (i : nat),
    finished (sys_pool (run sched (boot this invs)) i) = false ->
    exists j, forall junk, sched_step j junk (run sched (boot this invs))
                           <> run sched (boot this invs).
Proof.
  intros this invs sched i Hunf.
  apply (disciplined_progress _ i); [|exact Hunf].
  apply disciplined_run, disciplined_boot.
Qed.

Lemma callbacks_never_deadlock_witness :
  let invs := fun i => match i with
                       | 0%nat => Some (OnGoalPose (goal_msg "base_link"%string (pose_at 2 0)))
                       | 1%nat => Some OnTimer
                       | _ => None
                       end in
  let s := run [(0, None); (1, None)]%nat (boot default_controller invs) in
  exists j, forall junk, sched_step j junk s <> s.
Proof.
  apply (callbacks_never_deadlock default_controller
           (fun i => match i with
                     | 0%nat => Some (OnGoalPose (goal_msg "base_link"%string (pose_at 2 0)))
                     | 1%nat => Some OnTimer
                     | _ => None
                     end)
           [(0, None); (1, None)]%nat 1%nat).
  reflexivity.
Defined.

(** Without the mutex a tick can mix two goals: its left input is taken
    from the goal before an assignment and its right input from the goal
    after it, and no read is torn. *)
Example tick_without_mutex_mixes_goals :
  let g1 := Some (pose_at 2 0) in
  let g2 := Some (pose_at 0 2) in
  let s := run [(1, None); (1, None); (0, None); (0, None); (1, None); (1, None)]%nat
               (mixing_system default_controller g1 g2) in
  sys_published s
  = [get_twist recording_model
       (emulate_light_sensor g1 (1 / 10) (1 / 10 * -1))
       (emulate_light_sensor g2 (1 / 10) (1 / 10))]
  /\ sys_torn_reads s = 0%nat.
Proof. cbn. split; reflexivity. Qed.

(** X15: under every interleaving the vehicle stays still until a goal
    in the base frame arrives: if the object starts without a goal and
    no goal message carries the base frame id, every message published
    is the zero command. *)
Theorem concurrent_idle_until_goal_accepted :
  forall (this : BraitenbergVehicleController)
         (invs : nat -> option Invocation)
         (sched : list (nat * option Pose)),
    goal_pose_ this = None ->
    (forall i msg, invs i = Some (OnGoalPose msg) ->
                   String.eqb (frame_id (header msg)) (base_link_frame_id_ this) = false) ->
    Forall (fun t => t = Twist_default) (sys_published (run sched (boot this invs))).
Proof.
  intros this invs sched Hgoal Hno.
  destruct (coherent_run this _ sched _ (coherent_boot this invs)) as (_ & Hpub & _).
  eapply Forall_impl; [|exact Hpub].
  intros t (g & Hg & ->).
  assert (g = None) as ->.
  { destruct Hg as [->|(i & msg & Hi & ->)]; [exact Hgoal|].
    unfold gated_goal. now rewrite (Hno i msg Hi). }
  reflexivity.
Qed.

Lemma concurrent_idle_until_goal_accepted_witness :
  Forall (fun t => t = Twist_default)
    (sys_published
       (run [(1, None); (0, None); (1, None); (1, None); (0, None); (1, None)]%nat
          (boot default_controller
             (fun i => match i with
                       | 0%nat => Some (OnGoalPose (goal_msg "map"%string (pose_at 2 0)))
                       | 1%nat => Some OnTimer
                       | _ => None
                       end)))).
Proof.
  apply (concurrent_idle_until_goal_accepted default_controller
           (fun i => match i with
                     | 0%nat => Some (OnGoalPose (goal_msg "map"%string (pose_at 2 0)))
                     | 1%nat => Some OnTimer
                     | _ => None
                     end)).
  - reflexivity.
  - intros [|[|i]] msg H; try discriminate.
    injection H as <-. reflexivity.
Defined.

(** ** Construction *)

(** X16: a controller is idle when it has just been constructed,
    whatever the parameters: it holds no goal, and until a goal message
    in its base frame is processed every tick publishes the zero
    command. *)
Theorem constructed_controller_is_idle :
  forall (get_string : string -> string -> string)
         (get_double : string -> R -> R)
         (twist_law : R -> R -> R -> R -> Twist)
         (invs : list Invocation),
    let c := BraitenbergVehicleController_ctor get_string get_double twist_law in
    forallb (fun inv => negb (is_accepted_goal c inv)) invs = true ->
    goal_pose_ c = None
    /\ exists tr,
         exec_all c invs = Some (c, tr)
         /\ published tr = repeat Twist_default (ticks invs).
Proof.
  intros get_string get_double twist_law invs c Hno.
  split; [reflexivity|].
  apply exec_all_without_accepted_goal; [reflexivity | reflexivity | exact Hno].
Qed.

Lemma constructed_controller_is_idle_witness :
  let c := BraitenbergVehicleController_ctor
             (fun _ d => d) (fun _ d => d)
             (fun _ _ l r => get_twist recording_model l r) in
  goal_pose_ c = None
  /\ exists tr,
       exec_all c [OnTimer; OnGoalPose (goal_msg "odom"%string (pose_at 2 0)); OnTimer]
       = Some (c, tr)
       /\ published tr = repeat Twist_default 2.
Proof.
  apply (constructed_controller_is_idle
           (fun _ d => d) (fun _ d => d)
           (fun _ _ l r => get_twist recording_model l r)
           [OnTimer; OnGoalPose (goal_msg "odom"%string (pose_at 2 0)); OnTimer]).
  reflexivity.
Defined.


(** ** Binary64 arithmetic *)

Lemma digits2_pos_log2 (m : positive) :
  Zpos (digits2_pos m) = (Z.log2 (Zpos m) + 1)%Z.
Proof.
  induction m as [m IH|m IH|].
  - cbn [digits2_pos]. rewrite Pos2Z.inj_succ, IH.
    change (Zpos m~1) with (2 * Zpos m + 1)%Z.
    rewrite Z.log2_succ_double by lia. lia.
  - cbn [digits2_pos]. rewrite Pos2Z.inj_succ, IH.
    change (Zpos m~0) with (2 * Zpos m)%Z.
    rewrite Z.log2_double by lia. lia.
  - reflexivity.
Qed.

Lemma Zdigits2_log2 (m : Z) : (0 < m)%Z -> Zdigits2 m = (Z.log2 m + 1)%Z.
Proof.
  destruct m as [|m|m]; try lia. intros _. apply digits2_pos_log2.
Qed.

Lemma shr_1_m (mrs : shr_record) :
  (0 <= shr_m mrs)%Z -> shr_m (shr_1 mrs) = Z.shiftr (shr_m mrs) 1.
Proof.
  destruct mrs as [m r s]. cbn [shr_m]. intros Hm.
  rewrite Z.shiftr_div_pow2 by lia. change (2 ^ 1)%Z with 2%Z.
  destruct m as [|[p|p|]|p]; try lia; cbn [shr_1 shr_m].
  - reflexivity.
  - rewrite (Pos2Z.inj_xI p). apply Z.div_unique with 1%Z; lia.
  - rewrite (Pos2Z.inj_xO p). apply Z.div_unique with 0%Z; lia.
  - reflexivity.
Qed.

Lemma iter_shr_1_m (p : positive) :
  forall mrs : shr_record,
    (0 <= shr_m mrs)%Z ->
    shr_m (SpecFloat.iter_pos shr_1 p mrs) = Z.shiftr (shr_m mrs) (Zpos p).
Proof.
  induction p as [p IH|p IH|]; intros mrs Hm; cbn [SpecFloat.iter_pos].
  - assert (H1 : (0 <= shr_m (shr_1 mrs))%Z)
      by (rewrite shr_1_m by assumption; apply Z.shiftr_nonneg; assumption).
    assert (H2 : (0 <= shr_m (SpecFloat.iter_pos shr_1 p (shr_1 mrs)))%Z)
      by (rewrite IH by assumption; apply Z.shiftr_nonneg; assumption).
    rewrite IH, IH, shr_1_m by assumption.
    rewrite !Z.shiftr_shiftr by lia. f_equal. lia.
  - assert (H2 : (0 <= shr_m (SpecFloat.iter_pos shr_1 p mrs))%Z)
      by (rewrite IH by assumption; apply Z.shiftr_nonneg; assumption).
    rewrite IH, IH by assumption.
    rewrite !Z.shiftr_shiftr by lia. f_equal. lia.
  - apply shr_1_m. assumption.
Qed.

Lemma shr_record_of_loc_m (m : Z) (l : location) :
  shr_m (shr_record_of_loc m l) = m.
Proof. destruct l as [|[]]; reflexivity. Qed.

(** Shifting a positive mantissa to its place keeps it positive and
    keeps the position of its leading digit, as long as that position is
    above the smallest exponent. *)
Lemma shr_fexp_pos (m e : Z) (l : location) :
  (0 < m)%Z ->
  (emin < Zdigits2 m + e)%Z ->
  (0 < shr_m (fst (shr_fexp prec emax m e l)))%Z
  /\ (Zdigits2 (shr_m (fst (shr_fexp prec emax m e l)))
      + snd (shr_fexp prec emax m e l)
      = Zdigits2 m + e)%Z.
Proof.
  intros Hm He. unfold shr_fexp, shr.
  rewrite (Zdigits2_log2 m Hm) in *.
  set (n := (fexp prec emax (Z.log2 m + 1 + e) - e)%Z).
  assert (Hn : (n < Z.log2 m + 1)%Z).
  { unfold n, fexp, SpecFloat.emin, prec, emax in *. lia. }
  destruct n as [|p|p] eqn:Hp; cbn [fst snd].
  - rewrite shr_record_of_loc_m. rewrite Zdigits2_log2 by assumption. lia.
  - rewrite iter_shr_1_m by (rewrite shr_record_of_loc_m; lia).
    rewrite shr_record_of_loc_m.
    assert (Hlog : Z.log2 (Z.shiftr m (Zpos p)) = (Z.log2 m - Zpos p)%Z).
    { rewrite Z.log2_shiftr by assumption. lia. }
    assert (Hpos : (0 < Z.shiftr m (Zpos p))%Z).
    { rewrite Z.shiftr_div_pow2 by lia.
      apply Z.div_str_pos. split; [lia|].
      apply Z.le_trans with (2 ^ Z.log2 m)%Z.
      - apply Z.pow_le_mono_r; lia.
      - apply Z.log2_spec. assumption. }
    split; [exact Hpos|].
    rewrite Zdigits2_log2 by assumption. lia.
  - rewrite shr_record_of_loc_m. rewrite Zdigits2_log2 by assumption. lia.
Qed.

Lemma round_nearest_even_bounds (m : Z) (l : location) :
  (m <= round_nearest_even m l <= m + 1)%Z.
Proof.
  unfold round_nearest_even. destruct l as [|[]]; try lia.
  destruct (Z.even m); lia.
Qed.

(** Rounding a positive number whose leading digit is above the
    smallest exponent gives a positive number or +infinity. *)
Inductive positive_sf : spec_float -> Prop :=
| positive_finite (m : positive) (e : Z) : positive_sf (S754_finite false m e)
| positive_infinity : positive_sf (S754_infinity false).

Lemma binary_round_aux_pos (m e : Z) (l : location) :
  (0 < m)%Z ->
  (emin < Zdigits2 m + e)%Z ->
  positive_sf (binary_round_aux prec emax false m e l).
Proof.
  intros Hm He. unfold binary_round_aux.
  destruct (shr_fexp_pos m e l Hm He) as [H1 H1'].
  destruct (shr_fexp prec emax m e l) as [mrs1 e1]. cbn [fst snd] in H1, H1'.
  set (m2 := round_nearest_even (shr_m mrs1) (loc_of_shr_record mrs1)).
  pose proof (round_nearest_even_bounds (shr_m mrs1) (loc_of_shr_record mrs1)) as Hr.
  fold m2 in Hr.
  assert (Hm2 : (0 < m2)%Z) by lia.
  assert (He2 : (emin < Zdigits2 m2 + e1)%Z).
  { rewrite (Zdigits2_log2 m2 Hm2).
    rewrite (Zdigits2_log2 _ H1) in H1'.
    assert (Z.log2 (shr_m mrs1) <= Z.log2 m2)%Z by (apply Z.log2_le_mono; lia).
    lia. }
  destruct (shr_fexp_pos m2 e1 loc_Exact Hm2 He2) as [H2 _].
  destruct (shr_fexp prec emax m2 e1 loc_Exact) as [mrs2 e2]. cbn [fst] in H2.
  destruct (shr_m mrs2) as [|m3|m3]; try lia.
  destruct (e2 <=? emax - prec)%Z; constructor.
Qed.

(** ** Rounded numbers are binary64 numbers *)

Lemma shr_fexp_exponent (m e : Z) (l : location) :
  (e <= fexp prec emax (Zdigits2 m + e))%Z ->
  snd (shr_fexp prec emax m e l) = fexp prec emax (Zdigits2 m + e).
Proof.
  intros He. unfold shr_fexp, shr.
  destruct (fexp prec emax (Zdigits2 m + e) - e)%Z as [|p|p] eqn:Hn;
    cbn [snd]; lia.
Qed.

Lemma fexp_mono (a b : Z) :
  (a <= b)%Z -> (fexp prec emax a <= fexp prec emax b)%Z.
Proof. unfold fexp. lia. Qed.

(** A positive mantissa with enough digits for its exponent rounds to a
    valid binary64 number. *)
Lemma binary_round_aux_valid (s : bool) (m e : Z) (l : location) :
  (0 < m)%Z ->
  (emin < Zdigits2 m + e)%Z ->
  (e <= fexp prec emax (Zdigits2 m + e))%Z ->
  valid_binary (binary_round_aux prec emax s m e l) = true.
Proof.
  intros Hm He Hfe. unfold binary_round_aux.
  destruct (shr_fexp_pos m e l Hm He) as [H1 H1'].
  pose proof (shr_fexp_exponent m e l Hfe) as H1e.
  destruct (shr_fexp prec emax m e l) as [mrs1 e1]. cbn [fst snd] in H1, H1', H1e.
  set (m2 := round_nearest_even (shr_m mrs1) (loc_of_shr_record mrs1)).
  pose proof (round_nearest_even_bounds (shr_m mrs1) (loc_of_shr_record mrs1)) as Hr.
  fold m2 in Hr.
  assert (Hm2 : (0 < m2)%Z) by lia.
  assert (Hd2 : (Zdigits2 (shr_m mrs1) <= Zdigits2 m2)%Z).
  { rewrite (Zdigits2_log2 m2 Hm2), (Zdigits2_log2 _ H1).
    assert (Z.log2 (shr_m mrs1) <= Z.log2 m2)%Z by (apply Z.log2_le_mono; lia).
    lia. }
  assert (He2 : (emin < Zdigits2 m2 + e1)%Z) by lia.
  assert (Hfe2 : (e1 <= fexp prec emax (Zdigits2 m2 + e1))%Z).
  { pose proof (fexp_mono (Zdigits2 m + e) (Zdigits2 m2 + e1) ltac:(lia)). lia. }
  destruct (shr_fexp_pos m2 e1 loc_Exact Hm2 He2) as [H2 H2'].
  pose proof (shr_fexp_exponent m2 e1 loc_Exact Hfe2) as H2e.
  destruct (shr_fexp prec emax m2 e1 loc_Exact) as [mrs2 e2].
  cbn [fst snd] in H2, H2', H2e.
  destruct (shr_m mrs2) as [|m3|m3] eqn:Hm3; try lia.
  destruct (e2 <=? emax - prec)%Z eqn:Hmax; [|reflexivity].
  cbn [valid_binary]. unfold SpecFloat.bounded, canonical_mantissa.
  rewrite Hmax, andb_true_r. apply Z.eqb_eq.
  cbn [Zdigits2] in H2'. rewrite H2'. symmetry. exact H2e.
Qed.

(** The integer square root of [m * 2^s] has at least half the digits. *)
Lemma sqrt_log2_lower (m s : Z) :
  (0 < m)%Z -> (0 <= s)%Z ->
  ((Z.log2 m + s) / 2 <= Z.log2 (Z.sqrt (m * 2 ^ s)))%Z.
Proof.
  intros Hm Hs.
  set (k := ((Z.log2 m + s) / 2)%Z).
  pose proof (Z.log2_nonneg m) as HL.
  assert (Hk0 : (0 <= k)%Z) by (unfold k; apply Z.div_pos; lia).
  assert (Hk : (2 * k <= Z.log2 m + s)%Z)
    by (unfold k; apply Z.mul_div_le; lia).
  assert (Hpow : (2 ^ k * 2 ^ k <= m * 2 ^ s)%Z).
  { rewrite <- Z.pow_add_r by lia.
    apply Z.le_trans with (2 ^ (Z.log2 m + s))%Z.
    - apply Z.pow_le_mono_r; lia.
    - rewrite Z.pow_add_r by lia.
      apply Z.mul_le_mono_nonneg_r; [apply Z.pow_nonneg; lia|].
      apply Z.log2_spec. assumption. }
  assert (Hsq : (2 ^ k <= Z.sqrt (m * 2 ^ s))%Z).
  { rewrite <- (Z.sqrt_square (2 ^ k)) by (apply Z.pow_nonneg; lia).
    apply Z.sqrt_le_mono. exact Hpow. }
  apply Z.log2_le_pow2; [|exact Hsq].
  apply Z.lt_le_trans with (2 ^ k)%Z; [apply Z.pow_pos_nonneg; lia | exact Hsq].
Qed.

(** The square root of a positive number [m * 2^e] not below 2^-2148
    rounds to a valid binary64 number. *)
Lemma sqrt_round_valid (m : positive) (e : Z) :
  (-2148 <= e)%Z ->
  valid_binary
    (let '(mz, ez, lz) := SFsqrt_core_binary prec emax (Zpos m) e in
     binary_round_aux prec emax false mz ez lz) = true.
Proof.
  intros He. unfold SFsqrt_core_binary.
  cbn [Zdigits2]. rewrite digits2_pos_log2.
  pose proof (Z.log2_nonneg (Zpos m)) as HL.
  set (L := Z.log2 (Zpos m)) in *.
  set (e' := Z.min (fexp prec emax (Z.div2 (L + 1 + e + 1))) (Z.div2 e)).
  assert (He'1 : (e' <= fexp prec emax (Z.div2 (L + 1 + e + 1)))%Z) by (unfold e'; lia).
  assert (He'2 : (2 * e' <= e)%Z).
  { assert (e' <= Z.div2 e)%Z by (unfold e'; lia).
    rewrite Z.div2_div in *. pose proof (Z.mul_div_le e 2 ltac:(lia)). lia. }
  clearbody e'.
  set (s := (e - 2 * e')%Z).
  assert (Hs : (0 <= s)%Z) by (unfold s; lia).
  assert (Hsdef : s = (e - 2 * e')%Z) by reflexivity.
  clearbody s.
  assert (Hm' : match s with
                | Zpos _ => Z.shiftl (Zpos m) s
                | Z0 => Zpos m
                | Zneg _ => 0%Z
                end = (Zpos m * 2 ^ s)%Z).
  { destruct s as [|p|p]; try lia.
    rewrite Z.shiftl_mul_pow2 by lia. reflexivity. }
  rewrite Hm'.
  pose proof (Z.sqrtrem_sqrt (Zpos m * 2 ^ s)) as Hq.
  destruct (Z.sqrtrem (Zpos m * 2 ^ s)) as [q r]. cbn [fst] in Hq. subst q.
  pose proof (sqrt_log2_lower (Zpos m) s ltac:(lia) Hs) as Hlog. fold L in Hlog.
  set (q := Z.sqrt (Zpos m * 2 ^ s)) in *.
  assert (Hqpos : (0 < q)%Z).
  { unfold q. apply Z.sqrt_pos.
    apply Z.mul_pos_pos; [lia | apply Z.pow_pos_nonneg; lia]. }
  assert (Hdig : (Z.div2 (L + 1 + e + 1) <= Zdigits2 q + e')%Z).
  { rewrite (Zdigits2_log2 q Hqpos). rewrite Z.div2_div.
    rewrite Hsdef in Hlog.
    replace (L + (e - 2 * e'))%Z with ((L + e) + (- e') * 2)%Z in Hlog by lia.
    rewrite Z.div_add in Hlog by lia.
    replace (L + 1 + e + 1)%Z with ((L + e) + 1 * 2)%Z by lia.
    rewrite Z.div_add by lia. lia. }
  apply binary_round_aux_valid.
  - exact Hqpos.
  - assert (-1073 <= Z.div2 (L + 1 + e + 1))%Z.
    { rewrite Z.div2_div. apply Z.div_le_lower_bound; lia. }
    unfold SpecFloat.emin, prec, emax. lia.
  - pose proof (fexp_mono _ _ Hdig). lia.
Qed.

Lemma valid_exponent (m : positive) (e : Z) :
  SpecFloat.bounded prec emax m e = true -> (-1074 <= e)%Z.
Proof.
  unfold SpecFloat.bounded, canonical_mantissa. intros Hb.
  apply andb_true_iff in Hb as [Hc _]. apply Z.eqb_eq in Hc.
  unfold fexp, SpecFloat.emin, prec, emax in Hc. lia.
Qed.

Lemma sum_of_squares_exponent (x y : spec_float) :
  valid_binary x = true -> valid_binary y = true ->
  (0 < fst (B64.sum_of_squares x y))%Z ->
  (-2148 <= snd (B64.sum_of_squares x y))%Z.
Proof.
  intros Hx Hy. unfold B64.sum_of_squares, B64.square.
  destruct x as [sx|sx| |sx mx ex], y as [sy|sy| |sy my ey];
    cbn [Z.eqb fst snd]; cbn [valid_binary] in Hx, Hy;
    try (apply valid_exponent in Hx); try (apply valid_exponent in Hy);
    lia.
Qed.

(** [SFhypot] yields binary64 numbers from binary64 numbers. *)
Lemma SFhypot_valid (x y : spec_float) :
  valid_binary x = true -> valid_binary y = true ->
  valid_binary (B64.SFhypot x y) = true.
Proof.
  intros Hx Hy.
  assert (Hround : valid_binary
                     match B64.sum_of_squares x y with
                     | (Zpos m, e) =>
                         let '(mz, ez, lz) := SFsqrt_core_binary prec emax (Zpos m) e in
                         binary_round_aux prec emax false mz ez lz
                     | _ => S754_zero false
                     end = true).
  { destruct (B64.sum_of_squares x y) as [[|m|m] e] eqn:Hs; try reflexivity.
    apply sqrt_round_valid.
    pose proof (sum_of_squares_exponent x y Hx Hy) as He.
    rewrite Hs in He. cbn [fst snd] in He. apply He. reflexivity. }
  unfold B64.SFhypot.
  destruct x as [sx|sx| |sx mx ex], y as [sy|sy| |sy my ey];
    try reflexivity; exact Hround.
Qed.

(** [B64.hypot] is [SFhypot] on the numbers its arguments stand for. *)
Lemma hypot_spec (a b : float) :
  Prim2SF (B64.hypot a b) = B64.SFhypot (Prim2SF a) (Prim2SF b).
Proof.
  unfold B64.hypot. apply Prim2SF_SF2Prim.
  apply SFhypot_valid; apply Prim2SF_valid.
Qed.

(** The quotient of 1 by a positive binary64 number is positive (or
    +infinity): it cannot round down to zero, because the smallest
    quotient, 1 / (2^1024 - 2^971), is far above the smallest positive
    number 2^-1074. *)
Lemma SFdiv_one_pos (m : positive) (e : Z) :
  SpecFloat.bounded prec emax m e = true ->
  positive_sf (SF64div (S754_finite false 4503599627370496 (-52))
                       (S754_finite false m e)).
Proof.
  intros Hb. unfold SpecFloat.bounded, canonical_mantissa in Hb.
  apply andb_true_iff in Hb as [Hc He].
  apply Z.eqb_eq in Hc. apply Z.leb_le in He.
  rewrite digits2_pos_log2 in Hc.
  pose proof (Z.log2_nonneg (Zpos m)) as HL0.
  destruct (Z.log2_spec (Zpos m) ltac:(lia)) as [HLlo HLhi].
  set (L := Z.log2 (Zpos m)) in *.
  assert (HL : (L <= 52)%Z)
    by (unfold fexp, SpecFloat.emin, prec, emax in Hc; lia).
  assert (Hemin : (-1074 <= e)%Z)
    by (unfold fexp, SpecFloat.emin, prec, emax in Hc; lia).
  unfold emax, prec in He.
  unfold SF64div, SFdiv, SFdiv_core_binary.
  change (Zdigits2 4503599627370496) with 53%Z.
  cbn [Zdigits2 xorb]. rewrite digits2_pos_log2. fold L.
  set (e' := Z.min (fexp prec emax (53 + -52 - (L + 1 + e))) (-52 - e)).
  set (s := (-52 - e - e')%Z).
  assert (Hs : (1 <= s)%Z)
    by (unfold s, e', fexp, SpecFloat.emin, prec, emax; lia).
  assert (Hse : (s = -52 - e - e')%Z) by reflexivity.
  clearbody s e'.
  destruct s as [|sp|sp] eqn:Hsp; try lia. rewrite <- Hsp in *.
  rewrite Z.shiftl_mul_pow2 by lia.
  change 4503599627370496%Z with (2 ^ 52)%Z.
  rewrite <- Z.pow_add_r by lia.
  set (q := ((2 ^ (52 + s)) / Zpos m)%Z).
  assert (Hq : fst (Z.div_eucl (2 ^ (52 + s)) (Zpos m)) = q) by reflexivity.
  destruct (Z.div_eucl (2 ^ (52 + s)) (Zpos m)) as [q' r]. cbn [fst] in Hq. subst q'.
  assert (Hqlo : (2 ^ (51 + s - L) <= q)%Z).
  { unfold q.
    replace (2 ^ (51 + s - L))%Z with (2 ^ (52 + s) / 2 ^ (L + 1))%Z.
    - apply Z.div_le_compat_l; [apply Z.pow_nonneg; lia | lia].
    - replace (51 + s - L)%Z with (52 + s - (L + 1))%Z by lia.
      symmetry. apply Z.pow_sub_r; lia. }
  assert (Hqpos : (0 < q)%Z).
  { apply Z.lt_le_trans with (2 ^ (51 + s - L))%Z; [apply Z.pow_pos_nonneg; lia | exact Hqlo]. }
  apply binary_round_aux_pos; [exact Hqpos|].
  rewrite Zdigits2_log2 by exact Hqpos.
  assert (51 + s - L <= Z.log2 q)%Z by (apply Z.log2_le_pow2; assumption).
  unfold SpecFloat.emin, prec, emax. lia.
Qed.

Lemma Prim2SF_one : Prim2SF 1 = S754_finite false 4503599627370496 (-52).
Proof. reflexivity. Qed.

Lemma SFcompare_finite_refl (s : bool) (m : positive) (e : Z) :
  SFcompare (S754_finite s m e) (S754_finite s m e) = Some Eq.
Proof.
  cbn. rewrite Z.compare_refl, Pos.compare_cont_refl. destruct s; reflexivity.
Qed.

(** [B64.hypot] is NaN or has its sign bit clear. *)
Inductive unsigned_sf : spec_float -> Prop :=
| unsigned_zero : unsigned_sf (S754_zero false)
| unsigned_infinity : unsigned_sf (S754_infinity false)
| unsigned_nan : unsigned_sf S754_nan
| unsigned_finite (m : positive) (e : Z) : unsigned_sf (S754_finite false m e).

Lemma binary_round_aux_unsigned (m e : Z) (l : location) :
  unsigned_sf (binary_round_aux prec emax false m e l).
Proof.
  unfold binary_round_aux.
  destruct (shr_fexp prec emax m e l) as [mrs1 e1].
  destruct (shr_fexp prec emax _ e1 loc_Exact) as [mrs2 e2].
  destruct (shr_m mrs2); [constructor | | constructor].
  destruct (e2 <=? emax - prec)%Z; constructor.
Qed.

Lemma hypot_unsigned (a b : float) : unsigned_sf (Prim2SF (B64.hypot a b)).
Proof.
  rewrite hypot_spec. unfold B64.SFhypot.
  destruct (Prim2SF a) as [sa|sa| |sa ma ea], (Prim2SF b) as [sb|sb| |sb mb eb];
    try constructor;
    (destruct (B64.sum_of_squares _ _) as [[|m|m] e]; [constructor | | constructor];
     destruct (SFsqrt_core_binary prec emax (Zpos m) e) as [[mz ez] lz];
     apply binary_round_aux_unsigned).
Qed.

(** The reading for a computed distance [d], whatever [d] is. *)
Lemma sign_law_of_distance (d : float) :
  unsigned_sf (Prim2SF d) ->
  B64.sign_law d (if (abs d <=? B64.epsilon)%float then 1%float else (1 / d)%float).
Proof.
  intros Hu. unfold B64.sign_law.
  inversion Hu as [Hd|Hd|Hd|m e Hd]; symmetry in Hd.
  - assert (d = 0%float) as -> by (apply Prim2SF_inj; rewrite Hd; reflexivity).
    right; right. repeat split; reflexivity.
  - assert (d = infinity) as -> by (apply Prim2SF_inj; rewrite Hd; reflexivity).
    right; left. split; reflexivity.
  - assert (d = nan) as -> by (apply Prim2SF_inj; rewrite Hd; reflexivity).
    left. split; reflexivity.
  - right; right. split; [|split].
    + unfold is_finite, is_nan, is_infinity.
      rewrite !FloatAxioms.eqb_spec, FloatAxioms.abs_spec, Hd.
      unfold SFeqb. rewrite SFcompare_finite_refl. reflexivity.
    + rewrite FloatAxioms.leb_spec, Hd. reflexivity.
    + destruct (abs d <=? B64.epsilon)%float; [reflexivity|].
      rewrite FloatAxioms.ltb_spec, FloatAxioms.div_spec, Hd, Prim2SF_one.
      pose proof (Prim2SF_valid d) as Hv. rewrite Hd in Hv. cbn in Hv.
      destruct (SFdiv_one_pos m e Hv); reflexivity.
Qed.

(** ** Finite arguments give a distance that is a number *)

Lemma shr_fexp_nonneg (m e : Z) (l : location) :
  (0 <= m)%Z -> (0 <= shr_m (fst (shr_fexp prec emax m e l)))%Z.
Proof.
  intros Hm. unfold shr_fexp, shr.
  destruct (fexp prec emax (Zdigits2 m + e) - e)%Z as [|p|p]; cbn [fst].
  - now rewrite shr_record_of_loc_m.
  - rewrite iter_shr_1_m by now rewrite shr_record_of_loc_m.
    apply Z.shiftr_nonneg. now rewrite shr_record_of_loc_m.
  - now rewrite shr_record_of_loc_m.
Qed.

Lemma binary_round_aux_not_nan (s : bool) (m e : Z) (l : location) :
  (0 <= m)%Z -> binary_round_aux prec emax s m e l <> S754_nan.
Proof.
  intros Hm. unfold binary_round_aux.
  pose proof (shr_fexp_nonneg m e l Hm) as H1.
  destruct (shr_fexp prec emax m e l) as [mrs1 e1]. cbn [fst] in H1.
  pose proof (round_nearest_even_bounds (shr_m mrs1) (loc_of_shr_record mrs1)) as Hr.
  pose proof (shr_fexp_nonneg
                (round_nearest_even (shr_m mrs1) (loc_of_shr_record mrs1))
                e1 loc_Exact ltac:(lia)) as H2.
  destruct (shr_fexp prec emax _ e1 loc_Exact) as [mrs2 e2]. cbn [fst] in H2.
  destruct (shr_m mrs2) as [|m3|m3]; try lia; try discriminate.
  destruct (e2 <=? emax - prec)%Z; discriminate.
Qed.

Lemma binary_normalize_not_nan (m e : Z) (szero : bool) :
  binary_normalize prec emax m e szero <> S754_nan.
Proof.
  unfold binary_normalize, binary_round.
  destruct m as [|m|m]; [discriminate| |];
    destruct (shl_align _ _ _) as [mz ez]; apply binary_round_aux_not_nan; lia.
Qed.

(** What a finite binary64 number stands for: a zero or a mantissa with
    an exponent. *)
Inductive finite_sf : spec_float -> Prop :=
| finite_zero (s : bool) : finite_sf (S754_zero s)
| finite_number (s : bool) (m : positive) (e : Z) : finite_sf (S754_finite s m e).

Lemma is_finite_sf (a : float) : is_finite a = true -> finite_sf (Prim2SF a).
Proof.
  unfold is_finite, is_nan, is_infinity.
  rewrite !FloatAxioms.eqb_spec, FloatAxioms.abs_spec.
  change (Prim2SF infinity) with (S754_infinity false).
  destruct (Prim2SF a) as [s|s| |s m e]; cbn; intros H;
    try constructor; try discriminate.
  rewrite orb_true_r in H. discriminate.
Qed.

Lemma sub_finite_not_nan (a b : float) :
  is_finite a = true -> is_finite b = true -> Prim2SF (a - b) <> S754_nan.
Proof.
  intros Ha Hb. apply is_finite_sf in Ha, Hb.
  rewrite FloatAxioms.sub_spec. unfold SF64sub, SFsub.
  destruct Ha as [sa|sa ma ea], Hb as [sb|sb mb eb].
  - destruct sa, sb; discriminate.
  - discriminate.
  - discriminate.
  - apply binary_normalize_not_nan.
Qed.

Lemma SFhypot_not_nan (x y : spec_float) :
  x <> S754_nan -> y <> S754_nan -> B64.SFhypot x y <> S754_nan.
Proof.
  intros Hx Hy.
  assert (Hround : match B64.sum_of_squares x y with
                   | (Zpos m, e) =>
                       let '(mz, ez, lz) := SFsqrt_core_binary prec emax (Zpos m) e in
                       binary_round_aux prec emax false mz ez lz
                   | _ => S754_zero false
                   end <> S754_nan).
  { destruct (B64.sum_of_squares x y) as [[|m|m] e]; try discriminate.
    unfold SFsqrt_core_binary.
    set (m' := match (e - 2 * _)%Z with
               | Zpos _ => _
               | Z0 => _
               | Zneg _ => _
               end).
    pose proof (Z.sqrtrem_sqrt m') as Hq.
    destruct (Z.sqrtrem m') as [q r]. cbn [fst] in Hq. subst q.
    apply binary_round_aux_not_nan. apply Z.sqrt_nonneg. }
  unfold B64.SFhypot.
  destruct x as [sx|sx| |sx mx ex], y as [sy|sy| |sy my ey];
    try discriminate; try congruence; exact Hround.
Qed.

(** With finite coordinates and finite offsets the distance is zero, a
    positive number or +infinity. *)
Lemma finite_goal_distance (g : B64.Pose) (x_offset y_offset : float) :
  is_finite (B64.px (B64.position g)) = true ->
  is_finite (B64.py (B64.position g)) = true ->
  is_finite x_offset = true ->
  is_finite y_offset = true ->
  is_nan (B64.goal_distance g x_offset y_offset) = false.
Proof.
  intros Hgx Hgy Hx Hy.
  pose proof (hypot_unsigned (B64.px (B64.position g) - x_offset)
                (B64.py (B64.position g) - y_offset)) as Hu.
  pose proof (SFhypot_not_nan _ _ (sub_finite_not_nan _ _ Hgx Hx)
                (sub_finite_not_nan _ _ Hgy Hy)) as Hn.
  rewrite <- hypot_spec in Hn.
  unfold B64.goal_distance, is_nan. rewrite FloatAxioms.eqb_spec.
  inversion Hu as [Hd|Hd|Hd|m e Hd]; unfold SFeqb.
  - reflexivity.
  - reflexivity.
  - congruence.
  - rewrite SFcompare_finite_refl. reflexivity.
Qed.

(** A goal at (3 * 2^1022, 3 * 2^1022) is finite, but its distance from
    the origin, about 4.24 * 2^1022, is beyond the largest binary64
    number: [std::hypot] overflows to +infinity and the reading is
    [1 / infinity] = 0 although a goal is held.  With the offsets of the
    constructor, 0.1 and 0.1, both inputs of a seeking tick are 0. *)
Lemma far_goal_reads_zero :
  let g := B64.pose_at 0x1.8p1023 0x1.8p1023 in
  is_finite (B64.px (B64.position g)) = true
  /\ is_finite (B64.py (B64.position g)) = true
  /\ B64.goal_distance g 0 0 = infinity
  /\ B64.emulate_light_sensor (Some g) 0 0 = 0%float
  /\ (0 <? B64.emulate_light_sensor (Some g) 0 0)%float = false
  /\ B64.seeking_inputs (Some g) 0x1.999999999999ap-4 0x1.999999999999ap-4
     = (0%float, 0%float).
Proof. vm_compute. repeat split. Qed.

Lemma positive_reading (r : float) :
  (0 <? r)%float = true ->
  is_nan r = false /\ (0 <=? r)%float = true /\ r <> 0%float.
Proof.
  intros Hr. split; [|split].
  - unfold is_nan. rewrite FloatAxioms.eqb_spec.
    rewrite FloatAxioms.ltb_spec in Hr.
    change (Prim2SF 0) with (S754_zero false) in Hr.
    unfold SFeqb. destruct (Prim2SF r) as [s|s| |s m e]; try discriminate.
    + destruct s; [discriminate | reflexivity].
    + rewrite SFcompare_finite_refl. reflexivity.
  - rewrite FloatAxioms.leb_spec. rewrite FloatAxioms.ltb_spec in Hr.
    unfold SFleb. unfold SFltb in Hr.
    destruct (SFcompare (Prim2SF 0) (Prim2SF r)) as [[| |]|]; try discriminate.
    reflexivity.
  - intros ->. discriminate.
Qed.

(** C10, as the code has it: without a goal the reading is 0.  With a
    goal held it goes with the distance the code computes: a finite
    distance, which is never negative, gives a strictly positive
    reading; a distance that has overflowed to +infinity gives 0; a NaN
    distance gives NaN.  With finite coordinates and finite offsets the
    distance is never NaN, so the reading is a number, it is not
    negative, and it is 0 exactly when the distance has overflowed.  The
    two inputs of a seeking tick are such readings, for the offsets
    [(x, y * -1)] and [(x, y)]. *)
Theorem b64_emulate_light_sensor_sign :
  forall (x_offset y_offset : float),
    B64.emulate_light_sensor None x_offset y_offset = 0%float
    /\ (forall g : B64.Pose,
           B64.sign_law (B64.goal_distance g x_offset y_offset)
                        (B64.emulate_light_sensor (Some g) x_offset y_offset))
    /\ (forall g : B64.Pose,
           is_finite (B64.px (B64.position g)) = true ->
           is_finite (B64.py (B64.position g)) = true ->
           is_finite x_offset = true ->
           is_finite y_offset = true ->
           is_nan (B64.emulate_light_sensor (Some g) x_offset y_offset) = false
           /\ (0 <=? B64.emulate_light_sensor (Some g) x_offset y_offset)%float = true
           /\ (B64.emulate_light_sensor (Some g) x_offset y_offset = 0%float
               <-> B64.goal_distance g x_offset y_offset = infinity))
    /\ (forall g : B64.Pose,
           B64.sign_law (B64.goal_distance g x_offset (y_offset * -1)%float)
                        (fst (B64.seeking_inputs (Some g) x_offset y_offset))
           /\ B64.sign_law (B64.goal_distance g x_offset y_offset)
                           (snd (B64.seeking_inputs (Some g) x_offset y_offset))).
Proof.
  intros x y.
  assert (Hlaw : forall (g : B64.Pose) (x' y' : float),
             B64.sign_law (B64.goal_distance g x' y')
                          (B64.emulate_light_sensor (Some g) x' y')).
  { intros g x' y'. unfold B64.emulate_light_sensor. cbn zeta.
    fold (B64.goal_distance g x' y').
    apply sign_law_of_distance. apply hypot_unsigned. }
  split; [reflexivity|]. split; [|split].
  - intros g. apply Hlaw.
  - intros g Hgx Hgy Hx Hy.
    pose proof (finite_goal_distance g x y Hgx Hgy Hx Hy) as Hnan.
    destruct (Hlaw g x y) as [[Hd _]|[[Hd Hr]|(Hd & _ & Hr)]].
    + congruence.
    + rewrite Hr, Hd. repeat split; reflexivity.
    + destruct (positive_reading _ Hr) as (H1 & H2 & H3).
      split; [exact H1|]. split; [exact H2|].
      split; [intros H0; contradiction|].
      intros Hinf. rewrite Hinf in Hd. discriminate.
  - intros g. split; apply Hlaw.
Qed.

(** The scenario of the specification in binary64: goal at (1.1, 0.1),
    offsets 0.1 and 0.1.  The left input, the reading of the right
    sensor, is about 0.9806 and the right input is 1. *)
Example b64_scenario :
  let inputs := B64.seeking_inputs
                  (Some (B64.pose_at 0x1.199999999999ap+0 0x1.999999999999ap-4))
                  0x1.999999999999ap-4 0x1.999999999999ap-4 in
  ((0x1.f6p-1 <? fst inputs) && (fst inputs <? 0x1.f7p-1))%float = true
  /\ snd inputs = 1%float.
Proof. vm_compute. split; reflexivity. Qed.

(** ** The reference function in binary64 *)

(** C2, as the code has it: [emulate_light_sensor] is the piecewise
    reference function taken in binary64: 0 without a goal; otherwise,
    with [d] the distance as [std::hypot] computes it from the rounded
    differences, 1 when [|d|] is at or below the machine epsilon and the
    rounded quotient [1 / d] in every other case. *)
Theorem b64_emulate_light_sensor_refines_reference :
  forall (goal : option B64.Pose) (x_offset y_offset : float),
    B64.emulate_light_sensor goal x_offset y_offset
    = B64.light_sensor_reference goal x_offset y_offset.
Proof.
  intros [g|] x y; [|reflexivity].
  unfold B64.emulate_light_sensor, B64.light_sensor_reference. cbn zeta.
  set (d := B64.hypot _ _).
  change B64.epsilon with 0x1p-52%float.
  rewrite FloatAxioms.leb_spec, FloatAxioms.compare_spec.
  unfold SFleb.
  destruct (SFcompare (Prim2SF (abs d)) (Prim2SF 0x1p-52)) as [[| |]|]; reflexivity.
Qed.

Lemma pow2_52_IZR : 2 ^ 52 = IZR 4503599627370496.
Proof. rewrite (pow_IZR 2 52). reflexivity. Qed.

Lemma to_R_zero : B64.to_R 0 = 0.
Proof. reflexivity. Qed.

Lemma to_R_one : B64.to_R 1 = 1.
Proof.
  unfold B64.to_R. rewrite Prim2SF_one. unfold B64.SF2R.
  change (Z.pow_pos 2 52) with 4503599627370496%Z. field.
  apply not_0_IZR. discriminate.
Qed.

Lemma to_R_epsilon : B64.to_R 0x1p-52 = / 2 ^ 52.
Proof.
  unfold B64.to_R.
  change (Prim2SF 0x1p-52) with (S754_finite false 4503599627370496 (-104)).
  unfold B64.SF2R.
  change (Z.pow_pos 2 104) with (4503599627370496 * 4503599627370496)%Z.
  rewrite mult_IZR, pow2_52_IZR. field. split; lra.
Qed.

Lemma to_R_2_pow_minus_80 : 0 < B64.to_R 0x1p-80 < / 2.
Proof.
  unfold B64.to_R.
  change (Prim2SF 0x1p-80) with (S754_finite false 4503599627370496 (-132)).
  unfold B64.SF2R.
  change (Z.pow_pos 2 132)
    with (4503599627370496 * 1208925819614629174706176)%Z.
  rewrite mult_IZR.
  assert (Ha : 0 < IZR 4503599627370496) by (apply IZR_lt; reflexivity).
  assert (Hb : 2 < IZR 1208925819614629174706176) by (apply IZR_lt; reflexivity).
  replace (IZR 4503599627370496
           / (IZR 4503599627370496 * IZR 1208925819614629174706176))
    with (/ IZR 1208925819614629174706176)
    by (field; lra).
  split.
  - apply Rinv_0_lt_compat. lra.
  - apply Rinv_lt_contravar; lra.
Qed.

(** C2 fails once the distance is rounded.  The goal (2^-52, 2^-80) is
    farther than epsilon from the origin, so the reference function of
    the specification, with the exact Euclidean distance, reads [1 / d],
    which is above 1; the code computes the distance 2^-52, which is
    epsilon itself, and returns 1. *)
Lemma rounded_distance_departs_from_reference :
  let g := B64.pose_at 0x1p-52 0x1p-80 in
  B64.goal_distance g 0 0 = B64.epsilon
  /\ B64.emulate_light_sensor (Some g) 0 0 = 1%float
  /\ B64.to_R (B64.emulate_light_sensor (Some g) 0 0) = 1
  /\ 1 < light_sensor_reference (Some (pose_to_R g)) (B64.to_R 0) (B64.to_R 0).
Proof.
  cbv zeta.
  assert (Hcode : B64.emulate_light_sensor (Some (B64.pose_at 0x1p-52 0x1p-80)) 0 0
                  = 1%float) by (vm_compute; reflexivity).
  split; [vm_compute; reflexivity|]. split; [exact Hcode|].
  split; [rewrite Hcode; apply to_R_one|].
  unfold light_sensor_reference, pose_to_R, B64.pose_at.
  cbn [position px py B64.position B64.px B64.py].
  rewrite to_R_zero, to_R_epsilon.
  pose proof to_R_2_pow_minus_80 as Hb.
  set (b := B64.to_R 0x1p-80) in *.
  pose proof epsilon_pos as He. pose proof epsilon_lt_half as Hh.
  fold epsilon.
  set (d := euclidean_distance epsilon b 0 0).
  assert (Hsq : d * d = epsilon * epsilon + b * b).
  { unfold d, euclidean_distance. rewrite sqrt_sqrt by nra. ring. }
  assert (Hd0 : 0 <= d) by apply sqrt_pos.
  assert (Hlo : epsilon < d) by nra.
  assert (Hhi : d < 1) by nra.
  destruct (Rle_lt_dec (Rabs d) epsilon) as [Hle|_].
  - rewrite Rabs_pos_eq in Hle by assumption. lra.
  - apply Rmult_lt_reg_r with d; [lra|].
    unfold Rdiv. rewrite Rmult_assoc, Rinv_l by lra. lra.
Qed.
